(** * Markdown-to-WordPress publisher: parser, link rewriter and upload loop

    A shallow embedding of [src/parser.py], [src/utils.py] and the upload
    loop of [src/uploader.py], together with the properties of the
    specification that concern them.

    Text is modelled by [string]; a character stands for the code point of
    the same number, so the model covers documents whose code points are
    below 256.  The regular expressions of the program are values of a small
    abstract syntax, run by a backtracking matcher that tries alternatives
    in the order of Python's [re] module. *)

From Stdlib Require Import Ascii String List NArith ZArith Bool Lia.
From stdpp Require Import gmap strings list.

(** ** Python's [str] methods used by the program *)

Module PyStr.

Definition nl : ascii := "010"%char.
Definition dquote : ascii := "034"%char.

(** [c.isspace()] for a code point below 256; it is also what [\s]
    matches in a [str] pattern and what [strip()] removes. *)
Definition isspace (c : ascii) : bool :=
  let n := N_of_ascii c in
  ((9 <=? n) && (n <=? 13) || (28 <=? n) && (n <=? 32)
   || (n =? 133) || (n =? 160))%N.

(** [c.lower()] for a code point below 256. *)
Definition lower_char (c : ascii) : ascii :=
  let n := N_of_ascii c in
  if ((65 <=? n) && (n <=? 90)
      || (192 <=? n) && (n <=? 222) && negb (n =? 215))%N
  then ascii_of_N (n + 32) else c.

Fixpoint lower (s : string) : string :=
  match s with
  | EmptyString => EmptyString
  | String c s' => String (lower_char c) (lower s')
  end.

Fixpoint lstrip (s : string) : string :=
  match s with
  | EmptyString => EmptyString
  | String c s' => if isspace c then lstrip s' else s
  end.

Fixpoint rstrip (s : string) : string :=
  match s with
  | EmptyString => EmptyString
  | String c s' =>
      match rstrip s' with
      | EmptyString => if isspace c then EmptyString else String c EmptyString
      | r => String c r
      end
  end.

(** [s.strip()] *)
Definition strip (s : string) : string := rstrip (lstrip s).

(** [bool(s)] of a string: true unless empty. *)
Definition nonempty (s : string) : bool :=
  match s with EmptyString => false | String _ _ => true end.

(** [s[:n]] and [s[n:]] *)
Fixpoint take (n : nat) (s : string) : string :=
  match n, s with
  | S n', String c s' => String c (take n' s')
  | _, _ => EmptyString
  end.

Fixpoint drop (n : nat) (s : string) : string :=
  match n, s with
  | S n', String _ s' => drop n' s'
  | _, _ => s
  end.

(** [s.startswith(p)] *)
Fixpoint startswith (s p : string) : bool :=
  match p, s with
  | EmptyString, _ => true
  | String a p', String c s' => Ascii.eqb a c && startswith s' p'
  | String _ _, EmptyString => false
  end.

(** [s.endswith(p)] *)
Fixpoint endswith (s p : string) : bool :=
  String.eqb s p ||
  match s with
  | EmptyString => false
  | String _ s' => endswith s' p
  end.

(** [s.split(sep)] for a one-character separator. *)
Fixpoint split (sep : ascii) (s : string) : list string :=
  match s with
  | EmptyString => [EmptyString]
  | String c s' =>
      if Ascii.eqb c sep then EmptyString :: split sep s'
      else match split sep s' with
           | hd :: tl => String c hd :: tl
           | [] => [String c EmptyString]
           end
  end.

(** [s.split(sep, 1)] when [sep in s]: the text before the first [sep]
    and the text after it; [None] when [sep] does not occur. *)
Fixpoint split_once (sep : ascii) (s : string) : option (string * string) :=
  match s with
  | EmptyString => None
  | String c s' =>
      if Ascii.eqb c sep then Some (EmptyString, s')
      else match split_once sep s' with
           | Some (k, v) => Some (String c k, v)
           | None => None
           end
  end.

(** [s.replace(old, new)] for a non-empty [old]: occurrences are found
    left to right and do not overlap; [skip] counts the characters of
    the occurrence just replaced that are still to be passed over. *)
Fixpoint replace_from (old new : string) (skip : nat) (s : string) : string :=
  match s with
  | EmptyString => EmptyString
  | String c s' =>
      match skip with
      | S n => replace_from old new n s'
      | O =>
          if startswith s old
          then new +:+ replace_from old new (String.length old - 1) s'
          else String c (replace_from old new 0 s')
      end
  end.

(** [s.replace(old, new)] for the empty [old]: [new] before every
    character and at the end. *)
Fixpoint intersperse (new : string) (s : string) : string :=
  match s with
  | EmptyString => new
  | String c s' => new +:+ String c (intersperse new s')
  end.

Definition replace (s old new : string) : string :=
  match old with
  | EmptyString => intersperse new s
  | String _ _ => replace_from old new 0 s
  end.

(** [all(p(c) for c in s)] *)
Fixpoint all_chars (p : ascii -> bool) (s : string) : bool :=
  match s with
  | EmptyString => true
  | String c s' => p c && all_chars p s'
  end.

(** [s] between double quotes. *)
Definition quoted (s : string) : string :=
  String dquote s +:+ String dquote EmptyString.

End PyStr.

(** ** The fragment of Python's [re] used by the program *)

Module Re.
Import PyStr.

(** One-character items. *)
Inductive cclass : Type :=
| CLit (c : ascii)   (* the character itself *)
| CDot               (* [.] : anything but a newline *)
| CAny               (* [.] under [re.DOTALL] *)
| CSpace             (* [\s] *)
| CNot (c : ascii).  (* [[^c]] *)

Definition cmatch (k : cclass) (c : ascii) : bool :=
  match k with
  | CLit a => Ascii.eqb a c
  | CDot => negb (Ascii.eqb c nl)
  | CAny => true
  | CSpace => isspace c
  | CNot a => negb (Ascii.eqb a c)
  end.

Inductive regex : Type :=
| REps                                 (* the empty pattern *)
| RBegin                               (* [^] without [re.MULTILINE] *)
| RChr (k : cclass)
| RSeq (r1 r2 : regex)
| RStar (greedy : bool) (k : cclass)   (* [k*] and [k*?] *)
| ROpt (r : regex)                     (* [r?] *)
| RGroup (n : nat) (r : regex).        (* the n-th capturing group *)

(** [k+] *)
Definition RPlus (k : cclass) : regex := RSeq (RChr k) (RStar true k).

(** A run of literal characters. *)
Fixpoint RLit (s : string) : regex :=
  match s with
  | EmptyString => REps
  | String c EmptyString => RChr (CLit c)
  | String c s' => RSeq (RChr (CLit c)) (RLit s')
  end.

(** Group [n] stands outside every optional part of [r]. *)
Fixpoint always_sets (n : nat) (r : regex) : bool :=
  match r with
  | RSeq r1 r2 => always_sets n r1 || always_sets n r2
  | RGroup m r1 => Nat.eqb n m || always_sets n r1
  | _ => false
  end.

(** Spans of the groups that took part in the match, latest first. *)
Definition caps : Type := list (nat * (nat * nat)).

Section Matcher.
Context {A : Type}.

(** [k*?] followed by [cont]: the shortest run first. *)
Fixpoint star_lazy (k : cclass) (cont : string -> nat -> option A)
         (s : string) (pos : nat) : option A :=
  match cont s pos with
  | Some x => Some x
  | None =>
      match s with
      | String c s' => if cmatch k c then star_lazy k cont s' (S pos) else None
      | EmptyString => None
      end
  end.

(** [k*] followed by [cont]: the longest run first. *)
Fixpoint star_greedy (k : cclass) (cont : string -> nat -> option A)
         (s : string) (pos : nat) : option A :=
  match s with
  | String c s' =>
      if cmatch k c then
        match star_greedy k cont s' (S pos) with
        | Some x => Some x
        | None => cont s pos
        end
      else cont s pos
  | EmptyString => cont s pos
  end.

(** The backtracking matcher: [s] is the text from position [pos] on,
    [cont] is what remains to be matched after [r]. *)
Fixpoint rmatch (r : regex) (s : string) (pos : nat) (cs : caps)
         (cont : string -> nat -> caps -> option A) : option A :=
  match r with
  | REps => cont s pos cs
  | RBegin => match pos with O => cont s pos cs | S _ => None end
  | RChr k =>
      match s with
      | String c s' => if cmatch k c then cont s' (S pos) cs else None
      | EmptyString => None
      end
  | RSeq r1 r2 =>
      rmatch r1 s pos cs (fun s1 p1 c1 => rmatch r2 s1 p1 c1 cont)
  | RStar true k => star_greedy k (fun s1 p1 => cont s1 p1 cs) s pos
  | RStar false k => star_lazy k (fun s1 p1 => cont s1 p1 cs) s pos
  | ROpt r1 =>
      match rmatch r1 s pos cs cont with
      | Some x => Some x
      | None => cont s pos cs
      end
  | RGroup n r1 =>
      rmatch r1 s pos cs (fun s1 p1 c1 => cont s1 p1 ((n, (pos, p1)) :: c1))
  end.
End Matcher.

(** A match object: the matched text, and the text of each group. *)
Record Match : Type := mkMatch {
  m_len : nat;
  m_group0 : string;
  m_groups : list (nat * string)
}.

Fixpoint group_lookup (n : nat) (gs : list (nat * string)) : option string :=
  match gs with
  | [] => None
  | (i, t) :: gs' => if Nat.eqb i n then Some t else group_lookup n gs'
  end.

(** [m.group(n)], with the empty string for a group that took no part
    in the match (what [findall] reports for such a group).  The groups
    the program reads with [group] are outside every optional part of
    their pattern, so they take part in every match. *)
Definition group (m : Match) (n : nat) : string :=
  match group_lookup n (m_groups m) with
  | Some t => t
  | None => EmptyString
  end.

(** [pattern.match(text, pos)]: [s] is the text from [pos] on. *)
Definition match_at (r : regex) (s : string) (pos : nat) : option Match :=
  rmatch r s pos []
    (fun _ e cs =>
       Some {| m_len := e - pos;
               m_group0 := take (e - pos) s;
               m_groups :=
                 map (fun '(i, (a, b)) => (i, take (b - a) (drop (a - pos) s))) cs |}).

(** The scan shared by [finditer], [findall], [search] and [sub]: the
    text cut into the matches found from left to right and the
    characters between them.  After a match of [n] characters the next
    [n - 1] positions are passed over ([skip]); an empty match is followed
    by the character it stands before. *)
Inductive piece : Type :=
| PChar (c : ascii)
| PMatch (m : Match).

Fixpoint scan (r : regex) (pos skip : nat) (s : string) : list piece :=
  match s with
  | EmptyString =>
      match skip with
      | O => match match_at r s pos with
             | Some m => [PMatch m]
             | None => []
             end
      | S _ => []
      end
  | String c s' =>
      match skip with
      | S n => scan r (S pos) n s'
      | O =>
          match match_at r s pos with
          | Some m =>
              match m_len m with
              | O => PMatch m :: PChar c :: scan r (S pos) 0 s'
              | S n => PMatch m :: scan r (S pos) n s'
              end
          | None => PChar c :: scan r (S pos) 0 s'
          end
      end
  end.

Fixpoint matches_of (ps : list piece) : list Match :=
  match ps with
  | [] => []
  | PChar _ :: ps' => matches_of ps'
  | PMatch m :: ps' => m :: matches_of ps'
  end.

(** [re.finditer(r, s)] *)
Definition finditer (r : regex) (s : string) : list Match :=
  matches_of (scan r 0 0 s).

(** [re.search(r, s)] *)
Definition search (r : regex) (s : string) : option Match :=
  head (finditer r s).

(** [re.sub(r, f, s)] for a callable [f]. *)
Fixpoint join_pieces (f : Match -> string) (ps : list piece) : string :=
  match ps with
  | [] => EmptyString
  | PChar c :: ps' => String c (join_pieces f ps')
  | PMatch m :: ps' => f m +:+ join_pieces f ps'
  end.

Definition sub (r : regex) (f : Match -> string) (s : string) : string :=
  join_pieces f (scan r 0 0 s).

End Re.

(** ** Errors and the collaborators outside the repository *)

Inductive exn : Type :=
| FileNotFoundError
| UnicodeDecodeError
| OSError
| ValueError
| RemoteError.

(** The outcome of a call that may raise. *)
Inductive outcome (A : Type) : Type :=
| Ok (a : A)
| Raise (e : exn).
Arguments Ok {A} a.
Arguments Raise {A} e.

#[global] Instance outcome_ret : MRet outcome := fun A a => Ok a.

#[global] Instance outcome_bind : MBind outcome := fun A B f x =>
  match x with
  | Ok a => f a
  | Raise e => Raise e
  end.

(** A [for] loop whose body may raise: the first exception ends it. *)
Fixpoint for_each {A S : Type} (body : A -> S -> outcome S) (l : list A) (st : S)
    : outcome S :=
  match l with
  | [] => Ok st
  | a :: l' => st' ← body a st; for_each body l' st'
  end.

(** What the parser asks of the operating system and of [urllib]:
    [os.path.exists], [os.path.abspath], [os.path.join], [os.path.dirname],
    [os.path.basename], reading a file as UTF-8 text, and the [scheme]
    field of [urlparse] (which raises [ValueError] on some malformed
    network locations). *)
Record OS : Type := mkOS {
  path_exists : string -> bool;
  abspath : string -> string;
  path_join : string -> string -> string;
  dirname : string -> string;
  basename : string -> string;
  read_text : string -> outcome string;
  urlparse_scheme : string -> outcome string
}.

(** ** [src/parser.py] *)

Import PyStr Re.

(** The [Asset] dataclass.  [file_name] is a field like the others
    ([field(init=False)]): it is set by [__post_init__] and takes part in
    the generated [__eq__]. *)
Record Asset : Type := mkAsset {
  original_path : string;
  absolute_path : string;
  is_image : bool;
  file_name : string
}.

(** [Asset(original_path=..., absolute_path=..., is_image=...)] *)
Definition Asset_init (os : OS) (original absolute : string) (image : bool) : Asset :=
  {| original_path := original;
     absolute_path := absolute;
     is_image := image;
     file_name := basename os absolute |}.

(** The [__eq__] that [@dataclass] generates: the tuples of all fields
    are compared. *)
Definition Asset_eq (a b : Asset) : bool :=
  String.eqb (original_path a) (original_path b)
  && String.eqb (absolute_path a) (absolute_path b)
  && Bool.eqb (is_image a) (is_image b)
  && String.eqb (file_name a) (file_name b).

Record MD_ParsedResult : Type := mkResult {
  content : string;
  file_path : string;
  dir_path : string;
  external_links : list string;
  local_assets : list Asset;
  cover_image : option Asset;
  front_matter : gmap string string
}.

(** The attributes of a [MarkdownParser] that change: [cover_path] does
    not exist until [_extract_cover_image] sets it. *)
Record MarkdownParser : Type := mkParser {
  cover_path : option string
}.

(** [r'<!--\s*cover:\s*(.*?)\s*-->'] *)
Definition _cover_pattern : regex :=
  RSeq (RLit "<!--")
  (RSeq (RStar true CSpace)
  (RSeq (RLit "cover:")
  (RSeq (RStar true CSpace)
  (RSeq (RGroup 1 (RStar false CDot))
  (RSeq (RStar true CSpace)
        (RLit "-->")))))).

(** [r'^---\s*\n(.*?)\n---\s*'], compiled with [re.DOTALL] *)
Definition _front_matter_pattern : regex :=
  RSeq RBegin
  (RSeq (RLit "---")
  (RSeq (RStar true CSpace)
  (RSeq (RChr (CLit nl))
  (RSeq (RGroup 1 (RStar false CAny))
  (RSeq (RChr (CLit nl))
  (RSeq (RLit "---")
        (RStar true CSpace))))))).

(** The optional title [(\s+Q[^Q]+Q)?] as group [n], where Q stands for
    the double quote character. *)
Definition title_group (n : nat) : regex :=
  ROpt (RGroup n
    (RSeq (RPlus CSpace)
    (RSeq (RChr (CLit dquote))
    (RSeq (RPlus (CNot dquote))
          (RChr (CLit dquote)))))).

(** [r'(!?)\[.*?\]\((.*?)(\s+Q[^Q]+Q)?\)'] *)
Definition link_pattern : regex :=
  RSeq (RGroup 1 (ROpt (RChr (CLit "!"))))
  (RSeq (RLit "[")
  (RSeq (RStar false CDot)
  (RSeq (RLit "](")
  (RSeq (RGroup 2 (RStar false CDot))
  (RSeq (title_group 3)
        (RLit ")")))))).

(** One step of the loop of [_extract_front_matter]. *)
Definition front_matter_line (fm : gmap string string) (line : string)
  : gmap string string :=
  let line := strip line in
  if negb (nonempty line) || startswith line "#" then fm
  else match split_once ":" line with
       | Some (key, value) => <[lower (strip key) := strip value]> fm
       | None => fm
       end.

Definition _extract_front_matter (content : string) : gmap string string :=
  match search _front_matter_pattern content with
  | None => ∅
  | Some m => fold_left front_matter_line (split nl (group m 1)) ∅
  end.

Definition _is_image_file (file_path : string) : bool :=
  existsb (endswith (lower file_path))
          [".jpg"; ".jpeg"; ".png"; ".gif"; ".webp"; ".svg"]%string.

Section Parser.
Variable os : OS.

Definition _process_local_asset (link_mark path base_dir : string)
           (result : MD_ParsedResult) : MD_ParsedResult :=
  let absolute := abspath os (path_join os base_dir path) in
  if negb (path_exists os absolute) then result
  else
    let asset := Asset_init os path absolute (nonempty link_mark) in
    {| content := content result;
       file_path := file_path result;
       dir_path := dir_path result;
       external_links := external_links result;
       local_assets := local_assets result ++ [asset];
       cover_image := cover_image result;
       front_matter := front_matter result |}.

(** The body of the loop of [_extract_links], for one tuple of
    [re.findall]. *)
Definition link_step (base_dir : string) (m : string * string * string)
           (result : MD_ParsedResult) : outcome MD_ParsedResult :=
  let '(link_mark, path, _) := m in
  let path := strip path in
  if negb (nonempty path) then Ok result
  else
    scheme ← urlparse_scheme os path;
    if String.eqb scheme "http" || String.eqb scheme "https" then
      Ok {| content := content result;
            file_path := file_path result;
            dir_path := dir_path result;
            external_links := external_links result ++ [path];
            local_assets := local_assets result;
            cover_image := cover_image result;
            front_matter := front_matter result |}
    else Ok (_process_local_asset link_mark path base_dir result).

(** [re.findall(link_pattern, content)] *)
Definition link_matches (content : string) : list (string * string * string) :=
  map (fun m => (group m 1, group m 2, group m 3)) (finditer link_pattern content).

Definition _extract_links (content base_dir : string) (result : MD_ParsedResult)
  : outcome MD_ParsedResult :=
  for_each (link_step base_dir) (link_matches content) result.

(** [_extract_cover_image] returns the parser and the result as the call
    leaves them, and the value it returns. *)
Definition _extract_cover_image (self : MarkdownParser) (content base_dir : string)
           (result : MD_ParsedResult)
  : MarkdownParser * MD_ParsedResult * option string :=
  match search _cover_pattern content with
  | None => (self, result, None)
  | Some cover_match =>
      let path := strip (group cover_match 1) in
      if negb (nonempty path) then (self, result, None)
      else
        let absolute := abspath os (path_join os base_dir path) in
        if negb (path_exists os absolute) then (self, result, None)
        else if negb (_is_image_file absolute) then (self, result, None)
        else ({| cover_path := Some path |}, result, Some path)
  end.

Definition parse (self : MarkdownParser) (md_file_path : string)
  : outcome (MarkdownParser * MD_ParsedResult) :=
  if negb (path_exists os md_file_path) then Raise FileNotFoundError
  else
    let file_path := abspath os md_file_path in
    let dir_path := dirname os file_path in
    content ← read_text os file_path;
    let front_matter := _extract_front_matter content in
    let parsed_result :=
      {| content := content;
         file_path := file_path;
         dir_path := dir_path;
         external_links := [];
         local_assets := [];
         cover_image := None;
         front_matter := front_matter |} in
    parsed_result ← _extract_links content dir_path parsed_result;
    let '(self, parsed_result, _) :=
      _extract_cover_image self content dir_path parsed_result in
    Ok (self, parsed_result).

End Parser.

(** ** [src/utils.py] *)

(** [r'!\[.*?\]\((.*?)(\s+Q[^Q]+Q)?\)'], Q the double quote *)
Definition image_pattern : regex :=
  RSeq (RLit "![")
  (RSeq (RStar false CDot)
  (RSeq (RLit "](")
  (RSeq (RGroup 1 (RStar false CDot))
  (RSeq (title_group 2)
        (RLit ")"))))).

(** [r'\[.*?\]\((.*?)\)'] *)
Definition text_link_pattern : regex :=
  RSeq (RLit "[")
  (RSeq (RStar false CDot)
  (RSeq (RLit "](")
  (RSeq (RGroup 1 (RStar false CDot))
        (RLit ")")))).

(** The callback of [re.sub]; [link_map.get(old_link, old_link)] is the
    lookup with a default. *)
Definition _replace_link (link_map : gmap string string) (m : Match) : string :=
  let old_link := strip (group m 1) in
  let new_link := default old_link (link_map !! old_link) in
  replace (m_group0 m) old_link new_link.

Definition replace_markdown_links (md_content : string)
           (link_map : gmap string string) : string :=
  if decide (link_map = ∅) then md_content
  else
    let md_content := sub image_pattern (_replace_link link_map) md_content in
    let md_content := sub text_link_pattern (_replace_link link_map) md_content in
    md_content.

(** The targets the two passes of the rewriter see in a text: group 1 of
    every match of either pattern, stripped. *)
Definition link_targets (body : string) : list string :=
  map (fun m => strip (group m 1)) (finditer image_pattern body)
  ++ map (fun m => strip (group m 1)) (finditer text_link_pattern body).

(** ** [src/uploader.py] *)

(** Truth value of an optional string and of an optional integer. *)
Definition truthy_str (u : option string) : bool :=
  match u with Some s => nonempty s | None => false end.

Definition truthy_int (i : option Z) : bool :=
  match i with Some z => negb (Z.eqb z 0) | None => false end.

Section Uploader.
(** The state of the remote site, reading a file as bytes,
    [mimetypes.guess_type] and the XML-RPC call [wp.uploadFile], whose
    response carries the fields [url] and [id]. *)
Variable Server : Type.
Variable read_bytes : string -> outcome string.
Variable guess_type : string -> option string.
Variable wp_uploadFile :
  Server -> string -> string -> string -> Server * outcome (option string * option Z).

Definition _upload_single_asset (server : Server) (asset : Asset)
           (file_prefix : string)
  : Server * outcome (option string * option Z) :=
  let upload_file_name := file_prefix +:+ file_name asset in
  match read_bytes (absolute_path asset) with
  | Raise e => (server, Raise e)
  | Ok file_content =>
      let mime_type :=
        if truthy_str (guess_type (absolute_path asset))
        then default EmptyString (guess_type (absolute_path asset))
        else "application/octet-stream" in
      wp_uploadFile server upload_file_name mime_type file_content
  end.

(** The body of the loop of [upload_assets]: an exception is logged and
    the loop goes on. *)
Definition upload_step (file_prefix : string)
           (st : Server * gmap string string * gmap string Z) (asset : Asset)
  : Server * gmap string string * gmap string Z :=
  let '(server, link_map, asset_id_map) := st in
  match _upload_single_asset server asset file_prefix with
  | (server', Ok (url, media_id)) =>
      if truthy_str url && truthy_int media_id then
        (server',
         <[original_path asset := default EmptyString url]> link_map,
         <[original_path asset := default 0%Z media_id]> asset_id_map)
      else (server', link_map, asset_id_map)
  | (server', Raise _) => (server', link_map, asset_id_map)
  end.

Definition upload_assets (server : Server) (assets : list Asset)
           (file_prefix : string)
  : Server * gmap string string * gmap string Z :=
  match assets with
  | [] => (server, ∅, ∅)
  | _ => fold_left (upload_step file_prefix) assets (server, ∅, ∅)
  end.

End Uploader.

(** Step 1 of [publish_from_parsed_result]: the assets to upload.  [not in]
    on a list compares with [__eq__]. *)
Definition assets_to_upload (parsed_result : MD_ParsedResult) : list Asset :=
  let assets := local_assets parsed_result in
  match cover_image parsed_result with
  | Some cover =>
      if negb (existsb (fun a => Asset_eq a cover) assets)
      then assets ++ [cover]
      else assets
  | None => assets
  end.

(** ** A POSIX system with a fixed set of text files, for the examples *)

Module Posix.

(** [posixpath.basename] *)
Definition p_basename (p : string) : string := List.last (split "/" p) EmptyString.

Fixpoint rstrip_slash (s : string) : string :=
  match s with
  | EmptyString => EmptyString
  | String c s' =>
      match rstrip_slash s' with
      | EmptyString => if Ascii.eqb c "/" then EmptyString else String c EmptyString
      | r => String c r
      end
  end.

(** [posixpath.dirname] *)
Definition p_dirname (p : string) : string :=
  let head := take (String.length p - String.length (p_basename p)) p in
  match rstrip_slash head with
  | EmptyString => head
  | h => h
  end.

(** [posixpath.join] of two components *)
Definition p_join (a b : string) : string :=
  if startswith b "/" then b
  else if negb (nonempty a) || endswith a "/" then a +:+ b
  else a +:+ "/" +:+ b.

Definition scheme_char (c : ascii) : bool :=
  let n := N_of_ascii c in
  ((97 <=? n) && (n <=? 122) || (65 <=? n) && (n <=? 90)
   || (48 <=? n) && (n <=? 57) || (n =? 43) || (n =? 45) || (n =? 46))%N.

Definition ascii_alpha (c : ascii) : bool :=
  let n := N_of_ascii c in
  ((97 <=? n) && (n <=? 122) || (65 <=? n) && (n <=? 90))%N.

Definition c0_or_space (c : ascii) : bool := (N_of_ascii c <=? 32)%N.

Fixpoint lstrip_c0 (s : string) : string :=
  match s with
  | EmptyString => EmptyString
  | String c s' => if c0_or_space c then lstrip_c0 s' else s
  end.

Fixpoint remove_unsafe (s : string) : string :=
  match s with
  | EmptyString => EmptyString
  | String c s' =>
      if (N_of_ascii c =? 9)%N || (N_of_ascii c =? 10)%N || (N_of_ascii c =? 13)%N
      then remove_unsafe s' else String c (remove_unsafe s')
  end.

(** The scheme [urlsplit] finds: leading control characters and spaces
    are dropped, tabs and line breaks removed; the scheme is what precedes
    the first colon, lower-cased, when it starts with a letter and holds
    scheme characters only. *)
Definition scheme (url : string) : string :=
  match split_once ":" (remove_unsafe (lstrip_c0 url)) with
  | Some (String c k, _) =>
      if ascii_alpha c && all_chars scheme_char k then lower (String c k)
      else EmptyString
  | _ => EmptyString
  end.

Fixpoint file_lookup (p : string) (files : list (string * string)) : option string :=
  match files with
  | [] => None
  | (q, text) :: files' => if String.eqb p q then Some text else file_lookup p files'
  end.

(** The system holding [files] (absolute normalised path, content), for
    the examples only: [abspath] is the identity, so that the paths handed
    to it must be absolute and normalised already, and [urlparse] returns
    a scheme for every address; the addresses that [urlsplit] rejects are
    those of [system_rejecting] below. *)
Definition system (files : list (string * string)) : OS :=
  {| path_exists := fun p => bool_decide (is_Some (file_lookup p files));
     abspath := fun p => p;
     path_join := p_join;
     dirname := p_dirname;
     basename := p_basename;
     read_text := fun p =>
       match file_lookup p files with
       | Some text => Ok text
       | None => Raise OSError
       end;
     urlparse_scheme := fun url => Ok (scheme url) |}.

(** The same system, but for a [urlparse] that raises [ValueError] on the
    addresses that [rejects] holds of, as [urlsplit] does on an address
    whose network location has an unclosed bracket. *)
Definition system_rejecting (rejects : string -> bool) (files : list (string * string))
  : OS :=
  {| path_exists := path_exists (system files);
     abspath := abspath (system files);
     path_join := path_join (system files);
     dirname := dirname (system files);
     basename := basename (system files);
     read_text := read_text (system files);
     urlparse_scheme := fun url =>
       if rejects url then Raise ValueError else urlparse_scheme (system files) url |}.

End Posix.

(** ** Documents of the scenarios *)

Module Scenario.

(** The body with [![hero](cover.jpg)] and a cover annotation for the
    same file. *)
Definition cover_doc : string :=
  "![hero](cover.jpg)" +:+ String nl "<!-- cover: cover.jpg -->".

(** A directory with that document and the image. *)
Definition cover_system : OS :=
  Posix.system [("/blog/post.md", cover_doc); ("/blog/cover.jpg", "")].

(** What [_extract_links] makes of [![hero](cover.jpg)] there. *)
Definition hero_asset : Asset :=
  {| original_path := "cover.jpg";
     absolute_path := "/blog/cover.jpg";
     is_image := true;
     file_name := "cover.jpg" |}.

(** What it makes of the plain link [[hero](cover.jpg)]. *)
Definition hero_link_asset : Asset :=
  {| original_path := "cover.jpg";
     absolute_path := "/blog/cover.jpg";
     is_image := false;
     file_name := "cover.jpg" |}.

(** A front-matter block with a comment, a line without a colon, two
    declarations of one key, and a body. *)
Definition front_doc : string :=
  "---" +:+ String nl
  ("Title : First" +:+ String nl
  ("# a comment: ignored" +:+ String nl
  ("no colon here" +:+ String nl
  ("  TAGS: a, b  " +:+ String nl
  ("title: Second: part" +:+ String nl
  ("---" +:+ String nl
   "body: text")))))).

End Scenario.

(** ** Notions used to state the properties *)

(** The block the front-matter pattern captures at the head of a text. *)
Definition front_matter_block (content : string) : option string :=
  match search _front_matter_pattern content with
  | Some m => Some (group m 1)
  | None => None
  end.

(** The text that follows the opening line and the blank lines after
    it: [s] is the text after the three dashes, and the result is what
    stands after the last line break of the white space [s] starts with;
    [None] when that white space holds no line break (the three dashes do
    not stand alone on their line). *)
Fixpoint after_blank_lines (s : string) : option string :=
  match s with
  | EmptyString => None
  | String c s' =>
      if isspace c then
        match after_blank_lines s' with
        | Some t => Some t
        | None => if Ascii.eqb c nl then Some s' else None
        end
      else None
  end.

(** The text before the first line break of [s] that is followed by
    three dashes; [None] when [s] has no such line break. *)
Fixpoint before_close (s : string) : option string :=
  if startswith s (String nl "---") then Some EmptyString
  else match s with
       | EmptyString => None
       | String c s' =>
           match before_close s' with
           | Some t => Some (String c t)
           | None => None
           end
       end.

(** The front-matter block of a text, in words: the text starts with
    three dashes alone on their line (white space may follow them); blank
    lines after it are passed over; the block runs from there to the next
    line break that is followed by three dashes. *)
Definition front_matter_text (content : string) : option string :=
  if startswith content "---" then
    match after_blank_lines (drop 3 content) with
    | Some body => before_close body
    | None => None
    end
  else None.

(** The text made of [lines], each followed by a line break. *)
Fixpoint unlines (lines : list string) : string :=
  match lines with
  | [] => EmptyString
  | line :: rest => line +:+ String nl (unlines rest)
  end.

(** The entry a line of the block declares, in the words of the
    specification: a blank line and a comment line (the first character
    that is not white space is [#]) declare nothing, nor does a line
    without a colon; otherwise the key is the text before the first colon,
    trimmed and lower-cased, and the value the text after it, trimmed. *)
Definition declared_entry (line : string) : option (string * string) :=
  if all_chars isspace line then None
  else if startswith (lstrip line) "#" then None
  else match split_once ":" line with
       | Some (k, v) => Some (lower (strip k), strip v)
       | None => None
       end.

(** The value the lines declare for a key, the last declaration winning. *)
Fixpoint declared_value (key : string) (lines : list string) : option string :=
  match lines with
  | [] => None
  | line :: rest =>
      match declared_value key rest with
      | Some v => Some v
      | None =>
          match declared_entry line with
          | Some (k, v) => if String.eqb k key then Some v else None
          | None => None
          end
      end
  end.

(** The target of a tuple of [re.findall(link_pattern, ...)] as
    [_extract_links] uses it: stripped. *)
Definition link_path (m : string * string * string) : string :=
  strip (m.1.2).

(** [urlparse(path).scheme in (http, https)], false when [urlparse] raises. *)
Definition is_external (os : OS) (path : string) : bool :=
  match urlparse_scheme os path with
  | Ok scheme => String.eqb scheme "http" || String.eqb scheme "https"
  | Raise _ => false
  end.

(** The result [parse] starts from. *)
Definition empty_result (content file_path dir_path : string) : MD_ParsedResult :=
  {| content := content;
     file_path := file_path;
     dir_path := dir_path;
     external_links := [];
     local_assets := [];
     cover_image := None;
     front_matter := ∅ |}.

(** ** [src/utils.py]: [process_list_args] *)

(** [c in s] for a character [c] *)
Fixpoint contains_char (c : ascii) (s : string) : bool :=
  match s with
  | EmptyString => false
  | String a s' => Ascii.eqb a c || contains_char c s'
  end.

(** What one item of the list adds to [result]: the stripped non-empty
    parts of an item with a comma, the stripped item itself otherwise
    when it is not empty. *)
Definition process_item (item : string) : list string :=
  if contains_char "," item then
    map strip (List.filter (fun p => nonempty (strip p)) (split "," item))
  else if nonempty (strip item) then [strip item]
  else [].

Definition process_list_args (args_list : list string) : list string :=
  fold_left (fun result item => result ++ process_item item) args_list [].

(** ** [src/uploader.py]: the address of the site and the publication *)

(** [s.rstrip(c)] for a one-character [c] *)
Fixpoint rstrip_char (c : ascii) (s : string) : string :=
  match s with
  | EmptyString => EmptyString
  | String a s' =>
      match rstrip_char c s' with
      | EmptyString => if Ascii.eqb a c then EmptyString else String a EmptyString
      | r => String a r
      end
  end.

Definition _validate_wp_url (wp_url : string) : outcome string :=
  if negb (startswith wp_url "http://" || startswith wp_url "https://")
  then Raise ValueError
  else Ok (rstrip_char "/" wp_url).

(** The dictionary [post_data] handed to [wp.newPost]; the key
    [post_thumbnail] is present or not. *)
Record post_data : Type := mkPost {
  post_title : string;
  post_content : string;
  post_status : string;
  post_type : string;
  terms_category : list string;
  terms_post_tag : list string;
  post_thumbnail : option Z
}.

Section Publisher.
Variable os : OS.
(** [os.path.splitext(name)[0]] *)
Variable splitext_root : string -> string.
Variable Server : Type.
Variable read_bytes : string -> outcome string.
Variable guess_type : string -> option string.
Variable wp_uploadFile :
  Server -> string -> string -> string -> Server * outcome (option string * option Z).
Variable wp_newPost : Server -> post_data -> Server * outcome Z.

Definition publish_post (server : Server) (content title : string)
           (categories tags : option (list string)) (thumbnail_id : option Z)
           (status : string) : Server * outcome Z :=
  let categories := default [] categories in
  let tags := default [] tags in
  wp_newPost server
    {| post_title := title;
       post_content := content;
       post_status := status;
       post_type := "post";
       terms_category := categories;
       terms_post_tag := tags;
       post_thumbnail := if truthy_int thumbnail_id then thumbnail_id else None |}.

Definition publish_from_parsed_result (server : Server)
           (parsed_result : MD_ParsedResult) (title : option string)
           (categories tags : option (list string)) (file_prefix status : string)
  : Server * outcome Z :=
  let title :=
    if truthy_str title then default EmptyString title
    else splitext_root (basename os (file_path parsed_result)) in
  let assets := assets_to_upload parsed_result in
  let '(server, link_map, asset_id_map) :=
    upload_assets Server read_bytes guess_type wp_uploadFile server assets file_prefix in
  let updated_content := replace_markdown_links (content parsed_result) link_map in
  let thumbnail_id :=
    match cover_image parsed_result with
    | Some cover => asset_id_map !! original_path cover
    | None => None
    end in
  publish_post server updated_content title categories tags thumbnail_id status.

End Publisher.

(** ** A remote site that stores what it is sent, for the examples *)

Module Remote.

(** The site counts the files it has stored; a stored file gets the next
    number and an address made of its name. *)
Definition accept (stored : nat) (name mime bits : string)
  : nat * outcome (option string * option Z) :=
  (S stored, Ok (Some ("https://cdn.example/" +:+ name), Some (Z.of_nat (S stored)))).

(** A site that refuses every file. *)
Definition refuse (stored : nat) (name mime bits : string)
  : nat * outcome (option string * option Z) :=
  (stored, Raise RemoteError).

Definition read_any (path : string) : outcome string := Ok EmptyString.

Definition no_guess (path : string) : option string := None.

End Remote.

(** ** More notions used to state the properties *)

(** The asset [_extract_links] records for a tuple of [re.findall], if
    any: the stripped target is not empty, is not an external link, and
    resolves to an existing path. *)
Definition local_asset_of (os : OS) (base_dir : string)
           (m : string * string * string) : option Asset :=
  let path := link_path m in
  let absolute := abspath os (path_join os base_dir path) in
  if nonempty path && negb (is_external os path) && path_exists os absolute
  then Some (Asset_init os path absolute (nonempty (m.1.1)))
  else None.

(** A run of [n] slashes. *)
Fixpoint slashes (n : nat) : string :=
  match n with
  | O => EmptyString
  | S n' => String "/" (slashes n')
  end.

(** [t in s] for texts *)
Fixpoint occurs (t s : string) : bool :=
  startswith s t ||
  match s with
  | EmptyString => false
  | String _ s' => occurs t s'
  end.

(** The plain link [[label](target)] and the image [![label](target)]. *)
Definition text_link (label target : string) : string :=
  String "[" (label +:+ String "]" (String "(" (target +:+ ")"))).

Definition image_link (label target : string) : string :=
  String "!" (text_link label target).

(** Group [n] occurs in [r]. *)
Fixpoint mentions (n : nat) (r : regex) : bool :=
  match r with
  | RSeq r1 r2 => mentions n r1 || mentions n r2
  | ROpt r1 => mentions n r1
  | RGroup m r1 => Nat.eqb n m || mentions n r1
  | _ => false
  end.

(** * Properties *)

(** ** Strings and [str.replace] *)

Section StringFacts.
Import PyStr.

Lemma app_cons (c : ascii) (s t : string) :
  String c s +:+ t = String c (s +:+ t).
Proof. reflexivity. Qed.

Lemma app_nil (t : string) : EmptyString +:+ t = t.
Proof. reflexivity. Qed.

Lemma app_empty_r (s : string) : s +:+ EmptyString = s.
Proof.
  induction s as [|c s IH]; [reflexivity | now rewrite app_cons, IH].
Qed.

Lemma app_assoc_str (a b c : string) : (a +:+ b) +:+ c = a +:+ (b +:+ c).
Proof.
  induction a as [|x a IH]; [reflexivity | now rewrite !app_cons, IH].
Qed.

Lemma length_app_str (a b : string) :
  String.length (a +:+ b) = String.length a + String.length b.
Proof.
  induction a as [|x a IH]; [reflexivity | rewrite app_cons; simpl; now rewrite IH].
Qed.

Lemma take_drop (n : nat) (s : string) : take n s +:+ drop n s = s.
Proof.
  revert s; induction n as [|n IH]; intros [|c s]; simpl; try reflexivity.
  now rewrite app_cons, IH.
Qed.

Lemma take_app_length (u s : string) : take (String.length u) (u +:+ s) = u.
Proof.
  induction u as [|c u IH]; [now destruct s|].
  rewrite app_cons. simpl. now rewrite IH.
Qed.

Lemma length_drop_le (n : nat) (s : string) :
  String.length (drop n s) <= String.length s.
Proof.
  revert s; induction n as [|n IH]; intros [|c s]; simpl; try lia.
  specialize (IH s); lia.
Qed.

Lemma startswith_take (s p : string) :
  startswith s p = true -> take (String.length p) s = p.
Proof.
  revert s; induction p as [|a p IH]; intros [|c s]; simpl; try easy.
  intros H. apply andb_prop in H as [Hc Hs].
  apply Ascii.eqb_eq in Hc. subst. now rewrite IH.
Qed.

Lemma startswith_app (t s : string) : startswith (t +:+ s) t = true.
Proof.
  induction t as [|c t IH]; [now destruct s|].
  rewrite app_cons. cbn [startswith]. now rewrite Ascii.eqb_refl, IH.
Qed.

Lemma drop_app_length (u s : string) : drop (String.length u) (u +:+ s) = s.
Proof.
  induction u as [|c u IH]; [now destruct s|]. rewrite app_cons. exact IH.
Qed.

(** An occurrence of [t] cannot run over a character that [t] does not
    hold. *)
Lemma startswith_crossing (c : ascii) (a rest t : string) :
  contains_char c t = false ->
  startswith (a +:+ String c rest) t = startswith a t.
Proof.
  revert a. induction t as [|x t IH]; intros a H; [now destruct a|].
  cbn [contains_char] in H. apply orb_false_elim in H as [Hx Ht].
  destruct a as [|y a].
  - rewrite app_nil. cbn [startswith]. now rewrite Hx.
  - rewrite app_cons. cbn [startswith]. now rewrite IH.
Qed.

Lemma replace_from_skip (old new : string) (n : nat) (s : string) :
  replace_from old new n s = replace_from old new 0 (drop n s).
Proof.
  revert n; induction s as [|c s IH]; intros [|n]; try reflexivity.
  simpl replace_from at 1. now rewrite IH.
Qed.

Lemma replace_from_same (a : ascii) (old' : string) (n : nat) :
  forall s, String.length s <= n ->
            replace_from (String a old') (String a old') 0 s = s.
Proof.
  induction n as [|n IH]; intros [|c s] Hlen; simpl in *; try reflexivity; try lia.
  - destruct (Ascii.eqb a c && startswith s old') eqn:Hp.
    + change (Ascii.eqb a c && startswith s old')
        with (startswith (String c s) (String a old')) in Hp.
      rewrite replace_from_skip, Nat.sub_0_r.
      rewrite IH by (pose proof (length_drop_le (String.length old') s); lia).
      apply startswith_take in Hp. simpl in Hp.
      injection Hp as Hc Hp. subst a.
      rewrite app_cons. f_equal.
      rewrite <- (take_drop (String.length old') s) at 2. now rewrite Hp.
    + f_equal. apply IH. lia.
Qed.

Lemma intersperse_empty (s : string) : intersperse EmptyString s = s.
Proof.
  induction s as [|c s IH]; simpl; [reflexivity | now rewrite app_nil, IH].
Qed.

(** Replacing a text by itself changes nothing. *)
Lemma replace_same (s old : string) : replace s old old = s.
Proof.
  destruct old as [|a old]; simpl.
  - apply intersperse_empty.
  - now apply (replace_from_same _ _ (String.length s)).
Qed.

Lemma lstrip_spaces (s : string) :
  all_chars isspace s = true -> lstrip s = EmptyString.
Proof.
  induction s as [|c s IH]; simpl; [reflexivity|].
  intros H. apply andb_prop in H as [Hc Hs]. rewrite Hc. now apply IH.
Qed.

(** A text of white space only strips to the empty text. *)
Lemma strip_spaces (s : string) :
  all_chars isspace s = true -> strip s = EmptyString.
Proof. intros H. unfold strip. now rewrite lstrip_spaces. Qed.

End StringFacts.

(** ** The matcher consumes a prefix of the text *)

Section MatcherFacts.
Import PyStr Re.
Context {A : Type}.

Lemma star_lazy_inv (k : cclass) (cont : string -> nat -> option A) :
  forall s pos x,
    star_lazy k cont s pos = Some x ->
    exists u s', s = u +:+ s' /\ cont s' (pos + String.length u) = Some x.
Proof.
  induction s as [|c s IH]; intros pos x H; simpl in H.
  - destruct (cont EmptyString pos) eqn:E; [|discriminate].
    exists EmptyString, EmptyString. simpl. now rewrite Nat.add_0_r, E.
  - destruct (cont (String c s) pos) eqn:E.
    + exists EmptyString, (String c s). simpl. now rewrite Nat.add_0_r, E.
    + destruct (cmatch k c); [|discriminate].
      apply IH in H as (u & s' & -> & H).
      exists (String c u), s'. split; [reflexivity|].
      simpl. now rewrite Nat.add_succ_r.
Qed.

Lemma star_greedy_inv (k : cclass) (cont : string -> nat -> option A) :
  forall s pos x,
    star_greedy k cont s pos = Some x ->
    exists u s', s = u +:+ s' /\ cont s' (pos + String.length u) = Some x.
Proof.
  induction s as [|c s IH]; intros pos x H; simpl in H.
  - exists EmptyString, EmptyString. simpl. now rewrite Nat.add_0_r.
  - assert (Hhere : cont (String c s) pos = Some x ->
                    exists u s', String c s = u +:+ s'
                                 /\ cont s' (pos + String.length u) = Some x).
    { intros E. exists EmptyString, (String c s). simpl. now rewrite Nat.add_0_r. }
    destruct (cmatch k c); [|now apply Hhere].
    destruct (star_greedy k cont s (S pos)) eqn:E; [|now apply Hhere].
    injection H as ->.
    apply IH in E as (u & s' & -> & E).
    exists (String c u), s'. split; [reflexivity|].
    simpl. now rewrite Nat.add_succ_r.
Qed.

(** Whatever [rmatch] returns was returned by its continuation, called
    on the text that remains after a prefix. *)
Lemma rmatch_inv (r : regex) :
  forall s pos cs (cont : string -> nat -> caps -> option A) x,
    rmatch r s pos cs cont = Some x ->
    exists u s' cs', s = u +:+ s' /\ cont s' (pos + String.length u) cs' = Some x.
Proof.
  induction r as [| |k|r1 IH1 r2 IH2|g k|r1 IH1|n r1 IH1];
    intros s pos cs cont x H; simpl in H.
  - exists EmptyString, s, cs. simpl. now rewrite Nat.add_0_r.
  - destruct pos; [|discriminate].
    exists EmptyString, s, cs. now simpl.
  - destruct s as [|c s]; [discriminate|].
    destruct (cmatch k c); [|discriminate].
    exists (String c EmptyString), s, cs. simpl. now rewrite Nat.add_1_r.
  - apply IH1 in H as (u1 & s1 & c1 & -> & H).
    apply IH2 in H as (u2 & s2 & c2 & -> & H).
    exists (u1 +:+ u2), s2, c2. split; [now rewrite app_assoc_str|].
    now rewrite length_app_str, Nat.add_assoc.
  - destruct g.
    + apply star_greedy_inv in H as (u & s' & -> & H). now exists u, s', cs.
    + apply star_lazy_inv in H as (u & s' & -> & H). now exists u, s', cs.
  - destruct (rmatch r1 s pos cs cont) eqn:E.
    + injection H as ->. now apply IH1 in E.
    + exists EmptyString, s, cs. simpl. now rewrite Nat.add_0_r.
  - apply IH1 in H as (u & s' & c' & -> & H). eauto.
Qed.

End MatcherFacts.

Section ScanFacts.
Import PyStr Re.

(** A match at the head of [s] is a prefix of [s]. *)
Lemma match_at_prefix (r : regex) (s : string) (pos : nat) (m : Match) :
  match_at r s pos = Some m ->
  exists rest, s = m_group0 m +:+ rest /\ m_len m = String.length (m_group0 m).
Proof.
  unfold match_at. intros H.
  apply rmatch_inv in H as (u & s' & cs' & -> & H).
  injection H as <-. simpl.
  replace (pos + String.length u - pos) with (String.length u) by lia.
  rewrite take_app_length. eauto.
Qed.

Lemma match_at_take (r : regex) (s : string) (pos : nat) (m : Match) :
  match_at r s pos = Some m -> m_group0 m = take (m_len m) s.
Proof.
  intros H. apply match_at_prefix in H as (rest & -> & ->).
  now rewrite take_app_length.
Qed.

(** Putting the pieces of a scan together gives the text back. *)
Lemma scan_join (r : regex) :
  forall s pos skip, join_pieces m_group0 (scan r pos skip s) = drop skip s.
Proof.
  induction s as [|c s IH]; intros pos [|n]; simpl; try reflexivity.
  - destruct (match_at r EmptyString pos) eqn:E; [|reflexivity].
    simpl. apply match_at_take in E. rewrite E. now destruct (m_len m).
  - destruct (match_at r (String c s) pos) eqn:E.
    + apply match_at_take in E.
      destruct (m_len m) as [|e]; simpl; rewrite E, IH; simpl.
      * reflexivity.
      * rewrite app_cons. f_equal. apply take_drop.
    + simpl. now rewrite IH.
  - apply IH.
Qed.

Lemma join_pieces_ext (f g : Match -> string) (ps : list piece) :
  Forall (fun m => f m = g m) (matches_of ps) ->
  join_pieces f ps = join_pieces g ps.
Proof.
  induction ps as [|[c|m] ps IH]; simpl; intros H.
  - reflexivity.
  - f_equal. now apply IH.
  - inversion H; subst. f_equal; [assumption | now apply IH].
Qed.

(** [re.sub] with a callback that returns every match as it is gives
    the text back. *)
Lemma sub_unchanged (r : regex) (f : Match -> string) (s : string) :
  Forall (fun m => f m = m_group0 m) (finditer r s) -> sub r f s = s.
Proof.
  intros H. unfold sub.
  rewrite (join_pieces_ext f m_group0) by exact H.
  apply scan_join.
Qed.

End ScanFacts.

(** ** Groups that take part in every match *)

Section GroupFacts.
Import PyStr Re.

Lemma rmatch_groups {A : Type} (r : regex) :
  forall s pos cs (cont : string -> nat -> caps -> option A) x,
    rmatch r s pos cs cont = Some x ->
    exists s' pos' cs',
      cont s' pos' cs' = Some x
      /\ forall n, always_sets n r = true \/ In n (map fst cs) -> In n (map fst cs').
Proof.
  induction r as [| |k|r1 IH1 r2 IH2|g k|r1 IH1|m r1 IH1];
    intros s pos cs cont x H; simpl in H.
  - exists s, pos, cs. split; [exact H|]. now intros n [Hn|Hn].
  - destruct pos; [|discriminate].
    exists s, 0, cs. split; [exact H|]. now intros n [Hn|Hn].
  - destruct s as [|c s]; [discriminate|].
    destruct (cmatch k c); [|discriminate].
    exists s, (S pos), cs. split; [exact H|]. now intros n [Hn|Hn].
  - apply IH1 in H as (s1 & p1 & c1 & H & Hc1).
    apply IH2 in H as (s2 & p2 & c2 & H & Hc2).
    exists s2, p2, c2. split; [exact H|].
    intros n [Hn|Hn]; simpl in *.
    + apply orb_prop in Hn as [Hn|Hn]; auto.
    + auto.
  - destruct g.
    + apply star_greedy_inv in H as (u & s' & _ & H).
      exists s', (pos + String.length u), cs. split; [exact H|]. now intros n [Hn|Hn].
    + apply star_lazy_inv in H as (u & s' & _ & H).
      exists s', (pos + String.length u), cs. split; [exact H|]. now intros n [Hn|Hn].
  - destruct (rmatch r1 s pos cs cont) eqn:E.
    + injection H as ->. apply IH1 in E as (s1 & p1 & c1 & E & Hc1).
      exists s1, p1, c1. split; [exact E|]. intros n [Hn|Hn]; [discriminate | auto].
    + exists s, pos, cs. split; [exact H|]. now intros n [Hn|Hn].
  - apply IH1 in H as (s1 & p1 & c1 & H & Hc1).
    exists s1, p1, ((m, (pos, p1)) :: c1). split; [exact H|].
    intros n [Hn|Hn]; simpl in *.
    + apply orb_prop in Hn as [Hn|Hn]; [left | right; auto].
      symmetry. now apply Nat.eqb_eq.
    + right. auto.
Qed.

Lemma group_lookup_map (n : nat) (f : nat * nat -> string) (cs : caps) :
  In n (map fst cs) ->
  exists t, group_lookup n (map (fun '(i, sp) => (i, f sp)) cs) = Some t.
Proof.
  induction cs as [|[i sp] cs IH]; simpl; [easy|].
  intros [->|Hn].
  - rewrite Nat.eqb_refl. eauto.
  - destruct (Nat.eqb i n); eauto.
Qed.

(** A group outside every optional part of the pattern is set in every
    match: [m.group(n)] is a string, never [None]. *)
Lemma match_at_group_set (r : regex) (n : nat) (s : string) (pos : nat) (m : Match) :
  always_sets n r = true ->
  match_at r s pos = Some m ->
  exists t, group_lookup n (m_groups m) = Some t.
Proof.
  intros Hn H. unfold match_at in H.
  apply rmatch_groups in H as (s' & e & cs' & H & Hcs).
  injection H as <-. simpl.
  destruct (group_lookup_map n (fun '(a, b) => take (b - a) (drop (a - pos) s)) cs')
    as [t Ht]; [now apply Hcs; left|].
  exists t. rewrite <- Ht. f_equal. apply map_ext. now intros [i [a b]].
Qed.

Lemma scan_matches (r : regex) (P : Match -> Prop) :
  (forall s pos m, match_at r s pos = Some m -> P m) ->
  forall s pos skip, Forall P (matches_of (scan r pos skip s)).
Proof.
  intros HP. induction s as [|c s IH]; intros pos [|n]; simpl; auto.
  - destruct (match_at r EmptyString pos) eqn:E; simpl; eauto.
  - destruct (match_at r (String c s) pos) eqn:E; simpl; auto.
    destruct (m_len m); simpl; eauto.
Qed.

(** Group 1 of every match of the two patterns of the rewriter is set,
    so the callback never meets [None]. *)
Lemma rewriter_group_set (body : string) :
  Forall (fun m => exists t, group_lookup 1 (m_groups m) = Some t)
         (finditer image_pattern body ++ finditer text_link_pattern body).
Proof.
  apply Forall_app. split; apply scan_matches; intros s pos m;
    now apply match_at_group_set.
Qed.

(** So are the groups the parser reads. *)
Lemma parser_groups_set (content : string) :
  Forall (fun m => (exists t, group_lookup 1 (m_groups m) = Some t)
                   /\ exists t, group_lookup 2 (m_groups m) = Some t)
         (finditer link_pattern content)
  /\ Forall (fun m => exists t, group_lookup 1 (m_groups m) = Some t)
            (finditer _cover_pattern content ++ finditer _front_matter_pattern content).
Proof.
  split; [|apply Forall_app; split]; apply scan_matches; intros s pos m H;
    try split; (eapply match_at_group_set; [|exact H]; reflexivity).
Qed.

End GroupFacts.

(** ** The link rewriter *)

Section Rewriter.
Import PyStr Re.

(** A link whose target has no entry in the map is given back as it is. *)
Lemma _replace_link_unmapped (link_map : gmap string string) (m : Match) :
  link_map !! strip (group m 1) = None ->
  _replace_link link_map m = m_group0 m.
Proof.
  intros H. unfold _replace_link. rewrite H. simpl. apply replace_same.
Qed.

Lemma pass_unchanged (r : regex) (link_map : gmap string string) (body : string) :
  Forall (fun k => link_map !! k = None)
         (map (fun m => strip (group m 1)) (finditer r body)) ->
  sub r (_replace_link link_map) body = body.
Proof.
  intros H. apply sub_unchanged.
  apply Forall_map in H.
  eapply Forall_impl; [exact H|].
  intros m Hm. now apply _replace_link_unmapped.
Qed.

(** C7: rewriting with the empty mapping returns the body unchanged, and
    so does rewriting with a mapping none of whose keys is the target of a
    link in the body (no target seen by either pass has an entry). *)
Theorem replace_markdown_links_noop (body : string) :
  replace_markdown_links body ∅ = body
  /\ forall link_map : gmap string string,
       Forall (fun k => link_map !! k = None) (link_targets body) ->
       replace_markdown_links body link_map = body.
Proof.
  split.
  - unfold replace_markdown_links. now destruct (decide _).
  - intros link_map H.
    unfold replace_markdown_links. destruct (decide _); [reflexivity|].
    unfold link_targets in H. apply Forall_app in H as [Himg Htxt].
    rewrite (pass_unchanged image_pattern) by exact Himg.
    now apply pass_unchanged.
Qed.

Lemma replace_markdown_links_noop_witness :
  let body := "see [doc](./spec.pdf) and ![pic](img/a.png)" in
  let link_map : gmap string string :=
    {[ "other.png" := "https://cdn.example/other.png" ]} in
  Forall (fun k => link_map !! k = None) (link_targets body)
  /\ replace_markdown_links body ∅ = body
  /\ replace_markdown_links body link_map = body.
Proof.
  intros body link_map.
  assert (H : Forall (fun k => link_map !! k = None) (link_targets body)).
  { vm_compute. repeat constructor. }
  destruct (replace_markdown_links_noop body) as [Hempty Hmap].
  split; [exact H|]. split; [exact Hempty | exact (Hmap link_map H)].
Defined.

(** C8: with the mapping of [img/a.png] to [https://cdn.example/a.png],
    the body [![alt](img/a.png Q t Q)] (a title [t] in double quotes)
    becomes [![alt](https://cdn.example/a.png Q t Q)]: the image pass
    replaces the target, the plain-link pass changes nothing more. *)
Theorem replace_markdown_links_round_trip :
  let link_map : gmap string string :=
    {[ "img/a.png" := "https://cdn.example/a.png" ]} in
  let body := "![alt](img/a.png " +:+ quoted "t" +:+ ")" in
  let expected := "![alt](https://cdn.example/a.png " +:+ quoted "t" +:+ ")" in
  sub image_pattern (_replace_link link_map) body = expected
  /\ sub text_link_pattern (_replace_link link_map) expected = expected
  /\ replace_markdown_links body link_map = expected.
Proof. vm_compute. repeat split. Qed.

(** C2 (the code departs from it): on a link whose label holds the
    target, [replace_markdown_links] rewrites the label too, because the
    callback replaces every occurrence of the target inside the match. *)
Theorem replace_markdown_links_rewrites_label :
  let link_map : gmap string string :=
    {[ "a.png" := "https://cdn.example/a.png" ]} in
  replace_markdown_links "[a.png](a.png)" link_map
  = "[https://cdn.example/a.png](https://cdn.example/a.png)"
  /\ replace_markdown_links "![fig a.png](a.png) a.png" link_map
     = "![fig https://cdn.example/a.png](https://cdn.example/a.png) a.png".
Proof. vm_compute. split; reflexivity. Qed.

End Rewriter.

(** ** The link extractor *)

Section Extractor.
Import PyStr Re.
Variable os : OS.

Lemma for_each_app {A S : Type} (body : A -> S -> outcome S) (l1 l2 : list A) (st : S) :
  for_each body (l1 ++ l2) st = (st' ← for_each body l1 st; for_each body l2 st').
Proof.
  revert st; induction l1 as [|a l1 IH]; intros st; simpl; [reflexivity|].
  destruct (body a st) as [st1|e]; simpl; [apply IH | reflexivity].
Qed.

(** A step that leaves every state as it is can be taken out of the loop. *)
Lemma for_each_skip {A S : Type} (body : A -> S -> outcome S) (a : A)
      (pre post : list A) (st : S) :
  (forall st', body a st' = Ok st') ->
  for_each body (pre ++ a :: post) st = for_each body (pre ++ post) st.
Proof.
  intros Hskip. rewrite !for_each_app.
  destruct (for_each body pre st) as [st1|e]; simpl; [|reflexivity].
  now rewrite Hskip.
Qed.

Lemma link_step_blank (base_dir link_mark target title : string)
      (result : MD_ParsedResult) :
  all_chars isspace target = true ->
  link_step os base_dir (link_mark, target, title) result = Ok result.
Proof. intros H. unfold link_step. now rewrite strip_spaces. Qed.

(** C10: a link match whose target is white space only is skipped: its
    step leaves the result as it is, so the outcome of [_extract_links] is
    that of the loop over the other matches. *)
Theorem whitespace_target_skipped
        (content base_dir link_mark target title : string)
        (pre post : list (string * string * string)) (result : MD_ParsedResult) :
  link_matches content = pre ++ (link_mark, target, title) :: post ->
  all_chars isspace target = true ->
  link_step os base_dir (link_mark, target, title) result = Ok result
  /\ _extract_links os content base_dir result
     = for_each (link_step os base_dir) (pre ++ post) result.
Proof.
  intros Hm Hsp. split; [now apply link_step_blank|].
  unfold _extract_links. rewrite Hm. apply for_each_skip.
  intros st. now apply link_step_blank.
Qed.

Lemma link_step_missing (base_dir link_mark target title scheme : string)
      (result : MD_ParsedResult) :
  urlparse_scheme os (strip target) = Ok scheme ->
  scheme <> "http" -> scheme <> "https" ->
  path_exists os (abspath os (path_join os base_dir (strip target))) = false ->
  link_step os base_dir (link_mark, target, title) result = Ok result.
Proof.
  intros Hs Hhttp Hhttps Hex. unfold link_step.
  destruct (nonempty (strip target)); simpl; [|reflexivity].
  rewrite Hs. simpl.
  apply String.eqb_neq in Hhttp, Hhttps. rewrite Hhttp, Hhttps. simpl.
  unfold _process_local_asset. now rewrite Hex.
Qed.

(** C6: a link match classified as local (its stripped target parses
    with a scheme other than http and https) whose resolved path does not
    exist adds nothing and raises nothing: its step returns the result as
    it is, and the outcome of [_extract_links] is that of the loop over the
    other matches. *)
Theorem missing_local_asset_dropped
        (content base_dir link_mark target title scheme : string)
        (pre post : list (string * string * string)) (result : MD_ParsedResult) :
  link_matches content = pre ++ (link_mark, target, title) :: post ->
  urlparse_scheme os (strip target) = Ok scheme ->
  scheme <> "http" -> scheme <> "https" ->
  path_exists os (abspath os (path_join os base_dir (strip target))) = false ->
  link_step os base_dir (link_mark, target, title) result = Ok result
  /\ _extract_links os content base_dir result
     = for_each (link_step os base_dir) (pre ++ post) result.
Proof.
  intros Hm Hs Hhttp Hhttps Hex.
  split; [now apply (link_step_missing _ _ _ _ scheme)|].
  unfold _extract_links. rewrite Hm. apply for_each_skip.
  intros st. now apply (link_step_missing _ _ _ _ scheme).
Qed.

End Extractor.

Section ExternalLinks.
Import PyStr Re.
Variable os : OS.

Lemma _process_local_asset_external (link_mark path base_dir : string)
      (result : MD_ParsedResult) :
  external_links (_process_local_asset os link_mark path base_dir result)
  = external_links result.
Proof.
  unfold _process_local_asset. now destruct (negb (path_exists os _)).
Qed.

(** The external links after the loop over [ms], when [urlparse] raises
    on none of the targets. *)
Lemma for_each_link_step_external (base_dir : string)
      (ms : list (string * string * string)) :
  (forall m, In m ms -> exists s, urlparse_scheme os (link_path m) = Ok s) ->
  forall result, exists result',
    for_each (link_step os base_dir) ms result = Ok result'
    /\ external_links result'
       = external_links result
         ++ List.filter (fun p => nonempty p && is_external os p) (map link_path ms).
Proof.
  induction ms as [|[[link_mark target] title] ms IH]; intros Hparse result.
  - exists result. simpl. now rewrite app_nil_r.
  - assert (Hms : forall m, In m ms ->
                            exists s, urlparse_scheme os (link_path m) = Ok s).
    { intros m Hm. apply Hparse. now right. }
    specialize (IH Hms).
    destruct (Hparse (link_mark, target, title)) as [s Hs]; [now left|].
    unfold link_path in Hs. simpl in Hs.
    simpl for_each. simpl map. simpl List.filter.
    unfold link_path at 1 2, is_external at 1, link_step. simpl.
    destruct (nonempty (strip target)); simpl.
    + rewrite Hs. simpl.
      destruct (String.eqb s "http" || String.eqb s "https").
      * destruct (IH {| content := content result;
                        file_path := file_path result;
                        dir_path := dir_path result;
                        external_links := external_links result ++ [strip target];
                        local_assets := local_assets result;
                        cover_image := cover_image result;
                        front_matter := front_matter result |})
          as (result' & Hrun & Hext).
        exists result'. split; [exact Hrun|].
        rewrite Hext. simpl. now rewrite <- app_assoc.
      * destruct (IH (_process_local_asset os link_mark (strip target) base_dir result))
          as (result' & Hrun & Hext).
        exists result'. split; [exact Hrun|].
        now rewrite Hext, _process_local_asset_external.
    + apply IH.
Qed.

(** [urlparse] is called on the stripped targets that are not empty:
    it accepts the target of [m], if it is called on it. *)
Abbreviation parsed m :=
  (nonempty (link_path m) = true -> exists s, urlparse_scheme os (link_path m) = Ok s).

Lemma link_step_parsed (base_dir : string) (m : string * string * string)
      (result : MD_ParsedResult) :
  parsed m ->
  exists result',
    link_step os base_dir m result = Ok result'
    /\ external_links result'
       = external_links result
         ++ List.filter (fun p => nonempty p && is_external os p) [link_path m].
Proof.
  destruct m as [[link_mark target] title]. unfold link_path, link_step. simpl.
  intros Hparse. destruct (nonempty (strip target)); simpl.
  - destruct (Hparse eq_refl) as [s Hs]. unfold is_external. rewrite Hs. simpl.
    destruct (String.eqb s "http" || String.eqb s "https"); eexists;
      (split; [reflexivity|]); simpl; [reflexivity|].
    now rewrite _process_local_asset_external, app_nil_r.
  - exists result. now rewrite app_nil_r.
Qed.

Lemma link_step_ok (base_dir : string) (m : string * string * string)
      (result result' : MD_ParsedResult) :
  link_step os base_dir m result = Ok result' -> parsed m.
Proof.
  destruct m as [[link_mark target] title]. unfold link_path, link_step. simpl.
  intros H Hne. rewrite Hne in H. simpl in H.
  destruct (urlparse_scheme os (strip target)) as [s|e]; [now exists s | discriminate].
Qed.

Lemma link_step_raise (base_dir : string) (m : string * string * string)
      (e : exn) (result : MD_ParsedResult) :
  nonempty (link_path m) = true ->
  urlparse_scheme os (link_path m) = Raise e ->
  link_step os base_dir m result = Raise e.
Proof.
  destruct m as [[link_mark target] title]. unfold link_path, link_step. simpl.
  intros Hne Hraise. now rewrite Hne, Hraise.
Qed.

(** The loop returns when [urlparse] accepts every target it is called
    on, and the external links are then the stripped targets that are not
    empty and have scheme http or https. *)
Lemma for_each_link_step_parsed (base_dir : string)
      (ms : list (string * string * string)) :
  (forall m, In m ms -> parsed m) ->
  forall result, exists result',
    for_each (link_step os base_dir) ms result = Ok result'
    /\ external_links result'
       = external_links result
         ++ List.filter (fun p => nonempty p && is_external os p) (map link_path ms).
Proof.
  induction ms as [|m ms IH]; intros Hparse result.
  - exists result. simpl. now rewrite app_nil_r.
  - destruct (link_step_parsed base_dir m result) as (r1 & Hstep & Hext1);
      [apply Hparse; now left|].
    destruct (IH (fun m' Hm' => Hparse m' (or_intror Hm')) r1) as (result' & Hrun & Hext).
    exists result'. cbn [for_each]. rewrite Hstep. split; [exact Hrun|].
    rewrite Hext, Hext1, <- app_assoc.
    change (map link_path (m :: ms)) with ([link_path m] ++ map link_path ms).
    now rewrite List.filter_app.
Qed.

(** A loop that returns has called [urlparse] on accepted targets only. *)
Lemma for_each_link_step_ok (base_dir : string)
      (ms : list (string * string * string)) :
  forall result result',
    for_each (link_step os base_dir) ms result = Ok result' ->
    forall m, In m ms -> parsed m.
Proof.
  induction ms as [|m0 ms IH]; intros result result' Hrun m Hm; [destruct Hm|].
  cbn [for_each] in Hrun.
  destruct (link_step os base_dir m0 result) as [r1|e] eqn:Hstep; [|discriminate].
  destruct Hm as [<-|Hm]; [now apply (link_step_ok base_dir m0 result r1)|].
  now apply (IH r1 result').
Qed.

(** The loop raises what [urlparse] raises on the first target it
    rejects. *)
Lemma for_each_link_step_raise (base_dir : string)
      (pre post : list (string * string * string)) (m : string * string * string)
      (e : exn) (result : MD_ParsedResult) :
  (forall m', In m' pre -> parsed m') ->
  nonempty (link_path m) = true ->
  urlparse_scheme os (link_path m) = Raise e ->
  for_each (link_step os base_dir) (pre ++ m :: post) result = Raise e.
Proof.
  intros Hpre Hne Hraise. rewrite for_each_app.
  destruct (for_each_link_step_parsed base_dir pre Hpre result) as (r1 & -> & _).
  cbn [mbind outcome_bind for_each].
  now rewrite (link_step_raise base_dir m e r1 Hne Hraise).
Qed.

Lemma _process_local_asset_cover (link_mark path base_dir : string)
      (result : MD_ParsedResult) :
  cover_image (_process_local_asset os link_mark path base_dir result)
  = cover_image result.
Proof.
  unfold _process_local_asset. now destruct (negb (path_exists os _)).
Qed.

Lemma link_step_cover (base_dir : string) (m : string * string * string)
      (result result' : MD_ParsedResult) :
  link_step os base_dir m result = Ok result' ->
  cover_image result' = cover_image result.
Proof.
  destruct m as [[link_mark target] title]. unfold link_step.
  destruct (negb (nonempty (strip target))); [now intros [= <-]|].
  destruct (urlparse_scheme os (strip target)) as [s|e]; simpl; [|discriminate].
  destruct (String.eqb s "http" || String.eqb s "https"); intros [= <-];
    [reflexivity | apply _process_local_asset_cover].
Qed.

Lemma _extract_links_cover (content base_dir : string)
      (result result' : MD_ParsedResult) :
  _extract_links os content base_dir result = Ok result' ->
  cover_image result' = cover_image result.
Proof.
  unfold _extract_links. generalize (link_matches content) as ms.
  intros ms; revert result; induction ms as [|m ms IH]; intros result; simpl.
  - now intros [= <-].
  - destruct (link_step os base_dir m result) as [r1|e] eqn:E; simpl; [|discriminate].
    intros H. apply IH in H. rewrite H. now apply (link_step_cover base_dir m).
Qed.

Lemma _extract_cover_image_result (self : MarkdownParser) (content base_dir : string)
      (result : MD_ParsedResult) :
  (_extract_cover_image os self content base_dir result).1.2 = result.
Proof.
  unfold _extract_cover_image.
  destruct (search _cover_pattern content) as [m|]; [|reflexivity].
  repeat (match goal with |- context [if ?b then _ else _] => destruct b end;
          try reflexivity).
Qed.

(** [parse] never sets [cover_image]: [_extract_cover_image] stores the
    path it found in the parser and leaves the result as it is. *)
Lemma parse_cover_image_none (self self' : MarkdownParser) (md_file_path : string)
      (result : MD_ParsedResult) :
  parse os self md_file_path = Ok (self', result) -> cover_image result = None.
Proof.
  unfold parse.
  destruct (negb (path_exists os md_file_path)); [discriminate|].
  destruct (read_text os _) as [text|e]; simpl; [|discriminate].
  destruct (_extract_links os text _ _) as [r1|e] eqn:E; simpl; [|discriminate].
  apply _extract_links_cover in E. simpl in E.
  pose proof (_extract_cover_image_result self text
                (dirname os (abspath os md_file_path)) r1) as Hr.
  destruct (_extract_cover_image os self text _ r1) as [[s2 r2] ret].
  simpl in Hr. subst r2. now intros [= _ <-].
Qed.

End ExternalLinks.

Section ExternalLinksRun.
Import PyStr Re.

Lemma is_external_ext (os os' : OS) (p : string) :
  (forall q, urlparse_scheme os' q = urlparse_scheme os q) ->
  is_external os' p = is_external os p.
Proof. intros H. unfold is_external. now rewrite H. Qed.

(** [parse] returns what [_extract_links] returns, started on the
    record of the file that was read. *)
Lemma parse_runs_links (os : OS) (self : MarkdownParser) (md_file_path text : string) :
  path_exists os md_file_path = true ->
  read_text os (abspath os md_file_path) = Ok text ->
  match _extract_links os text (dirname os (abspath os md_file_path))
          {| content := text;
             file_path := abspath os md_file_path;
             dir_path := dirname os (abspath os md_file_path);
             external_links := [];
             local_assets := [];
             cover_image := None;
             front_matter := _extract_front_matter text |} with
  | Ok result => exists self', parse os self md_file_path = Ok (self', result)
  | Raise e => parse os self md_file_path = Raise e
  end.
Proof.
  intros Hex Hread. unfold parse. rewrite Hex, Hread. cbn [negb mbind outcome_bind].
  destruct (_extract_links os text _ _) as [r1|e]; [|reflexivity].
  cbn [mbind outcome_bind].
  pose proof (_extract_cover_image_result os self text
                (dirname os (abspath os md_file_path)) r1) as Hr.
  destruct (_extract_cover_image os self text _ r1) as [[self2 r2] ret].
  simpl in Hr. subst r2. now exists self2.
Qed.

(** C4 (as the code has it): [_extract_links] returns when [urlparse]
    accepts every stripped target that is not empty, and only then: on the
    first one it rejects, the error leaves the loop, and [parse] with it,
    and there is no result.  When it returns, the external links it has
    added are the targets of the link matches, stripped of surrounding
    white space, that are not empty and have scheme http or https, in the
    order of the matches and with their repetitions, and these are the
    external links of the result of [parse].  Whether a file exists plays
    no part in it: two systems with the same [urlparse] record the same
    external links. *)
Theorem external_links_stripped_in_order
        (os : OS) (content base_dir : string) (result : MD_ParsedResult) :
  let added :=
    List.filter (fun p => nonempty p && is_external os p)
                (map link_path (link_matches content)) in
  let accepted m :=
    nonempty (link_path m) = true ->
    exists s, urlparse_scheme os (link_path m) = Ok s in
  ((forall m, In m (link_matches content) -> accepted m) ->
   exists result',
     _extract_links os content base_dir result = Ok result'
     /\ external_links result' = external_links result ++ added)
  /\ (forall result',
        _extract_links os content base_dir result = Ok result' ->
        external_links result' = external_links result ++ added
        /\ forall m, In m (link_matches content) -> accepted m)
  /\ (forall pre m post e,
        link_matches content = pre ++ m :: post ->
        (forall m', In m' pre -> accepted m') ->
        nonempty (link_path m) = true ->
        urlparse_scheme os (link_path m) = Raise e ->
        _extract_links os content base_dir result = Raise e)
  /\ (forall (os' : OS) (result1 result2 : MD_ParsedResult),
        (forall p, urlparse_scheme os' p = urlparse_scheme os p) ->
        _extract_links os content base_dir result = Ok result1 ->
        _extract_links os' content base_dir result = Ok result2 ->
        external_links result2 = external_links result1)
  /\ (forall (self self' : MarkdownParser) (md_file_path : string)
             (parsed_result : MD_ParsedResult),
        read_text os (abspath os md_file_path) = Ok content ->
        parse os self md_file_path = Ok (self', parsed_result) ->
        external_links parsed_result = added)
  /\ (forall (self : MarkdownParser) (md_file_path : string) pre m post e,
        path_exists os md_file_path = true ->
        read_text os (abspath os md_file_path) = Ok content ->
        link_matches content = pre ++ m :: post ->
        (forall m', In m' pre -> accepted m') ->
        nonempty (link_path m) = true ->
        urlparse_scheme os (link_path m) = Raise e ->
        parse os self md_file_path = Raise e).
Proof.
  intros added accepted.
  assert (Hok : forall os0 dir start result',
             _extract_links os0 content dir start = Ok result' ->
             external_links result'
             = external_links start
               ++ List.filter (fun p => nonempty p && is_external os0 p)
                              (map link_path (link_matches content))
             /\ forall m, In m (link_matches content) ->
                          nonempty (link_path m) = true ->
                          exists s, urlparse_scheme os0 (link_path m) = Ok s).
  { intros os0 dir start result' Hrun.
    pose proof (for_each_link_step_ok os0 dir _ _ _ Hrun) as Hparse.
    split; [|exact Hparse].
    destruct (for_each_link_step_parsed os0 dir _ Hparse start)
      as (r & Hrun' & Hext).
    unfold _extract_links in Hrun. rewrite Hrun in Hrun'. now injection Hrun' as <-. }
  assert (Hraise : forall dir start pre m post e,
             link_matches content = pre ++ m :: post ->
             (forall m', In m' pre -> accepted m') ->
             nonempty (link_path m) = true ->
             urlparse_scheme os (link_path m) = Raise e ->
             _extract_links os content dir start = Raise e).
  { intros dir start pre m post e Hm Hpre Hne He. unfold _extract_links. rewrite Hm.
    now apply for_each_link_step_raise. }
  split; [|split; [|split; [|split; [|split]]]].
  - intros Hparse. now apply for_each_link_step_parsed.
  - intros result' Hrun. now apply (Hok os base_dir result).
  - apply Hraise.
  - intros os' result1 result2 Hsame Hrun1 Hrun2.
    apply Hok in Hrun1 as [-> _]. apply Hok in Hrun2 as [-> _].
    f_equal. apply List.filter_ext. intros p.
    now rewrite (is_external_ext os os' p Hsame).
  - intros self self' md_file_path parsed_result Hread Hparse.
    destruct (path_exists os md_file_path) eqn:Hex;
      [|unfold parse in Hparse; now rewrite Hex in Hparse].
    pose proof (parse_runs_links os self md_file_path content Hex Hread) as Hruns.
    destruct (_extract_links os content _ _) as [r|e] eqn:Hrun.
    + destruct Hruns as [self2 Hruns]. rewrite Hruns in Hparse.
      injection Hparse as _ <-. now apply Hok in Hrun as [-> _].
    + now rewrite Hruns in Hparse.
  - intros self md_file_path pre m post e Hex Hread Hm Hpre Hne He.
    pose proof (parse_runs_links os self md_file_path content Hex Hread) as Hruns.
    unfold _extract_links in Hruns. rewrite Hm in Hruns.
    now rewrite (for_each_link_step_raise os _ pre post m e _ Hpre Hne He) in Hruns.
Qed.

End ExternalLinksRun.

(** ** The extractor on concrete documents *)

Lemma whitespace_target_skipped_witness :
  let os := Posix.system [] in
  let content := "[w](   ) [a](http://x.org)" in
  let result := empty_result content "/blog/post.md" "/blog" in
  link_step os "/blog" ("", "   ", "") result = Ok result
  /\ _extract_links os content "/blog" result
     = for_each (link_step os "/blog") ([] ++ [("", "http://x.org", "")]) result.
Proof.
  intros os content result.
  apply (whitespace_target_skipped os content "/blog" "" "   " "" []
           [("", "http://x.org", "")] result); reflexivity.
Defined.

Lemma missing_local_asset_dropped_witness :
  let os := Posix.system [("/blog/post.md", "")] in
  let content := "![m](missing.png) [a](http://x.org)" in
  let result := empty_result content "/blog/post.md" "/blog" in
  link_step os "/blog" ("!", "missing.png", "") result = Ok result
  /\ _extract_links os content "/blog" result
     = for_each (link_step os "/blog") ([] ++ [("", "http://x.org", "")]) result.
Proof.
  intros os content result.
  apply (missing_local_asset_dropped os content "/blog" "!" "missing.png" ""
           "" [] [("", "http://x.org", "")] result);
    [reflexivity | reflexivity | discriminate | discriminate | reflexivity].
Defined.

Lemma external_links_stripped_in_order_witness :
  let content := "[x]( http://x.org ) ![a](a.png) [y](https://y.org) [x](http://x.org)" in
  let broken := "[x](http://x.org) [b](http://[::1) [y](https://y.org)" in
  let os := Posix.system [("/blog/post.md", content); ("/blog/a.png", "")] in
  let strict := Posix.system_rejecting (String.eqb "http://[::1") [("/blog/post.md", broken)] in
  (exists result',
      _extract_links os content "/blog" (empty_result content "/blog/post.md" "/blog")
      = Ok result'
      /\ external_links result' = ["http://x.org"; "https://y.org"; "http://x.org"])
  /\ (exists self' parsed_result,
         parse os {| cover_path := None |} "/blog/post.md" = Ok (self', parsed_result)
         /\ external_links parsed_result
            = ["http://x.org"; "https://y.org"; "http://x.org"])
  /\ _extract_links strict broken "/blog" (empty_result broken "/blog/post.md" "/blog")
     = Raise ValueError
  /\ parse strict {| cover_path := None |} "/blog/post.md" = Raise ValueError.
Proof.
  intros content broken os strict.
  destruct (external_links_stripped_in_order os content "/blog"
              (empty_result content "/blog/post.md" "/blog"))
    as (Hreturns & _ & _ & _ & Hparse & _).
  destruct (external_links_stripped_in_order strict broken "/blog"
              (empty_result broken "/blog/post.md" "/blog"))
    as (_ & _ & Hraises & _ & _ & Hparse_raises).
  assert (Hpre : forall m' : string * string * string,
             In m' [("", "http://x.org", "")] ->
             nonempty (link_path m') = true ->
             exists s, urlparse_scheme strict (link_path m') = Ok s).
  { intros m' [<-|[]] _. eexists. reflexivity. }
  split; [|split; [|split]].
  - destruct Hreturns as (result' & Hrun & Hext).
    + intros m _ _. eexists. reflexivity.
    + exists result'. split; [exact Hrun|]. rewrite Hext. reflexivity.
  - destruct (parse os {| cover_path := None |} "/blog/post.md")
      as [[self' parsed_result]|e] eqn:Hrun; [|discriminate Hrun].
    exists self', parsed_result. split; [reflexivity|].
    now rewrite (Hparse _ _ "/blog/post.md" parsed_result eq_refl Hrun).
  - now apply (Hraises [("", "http://x.org", "")] ("", "http://[::1", "")
                 [("", "https://y.org", "")] ValueError).
  - now apply (Hparse_raises {| cover_path := None |} "/blog/post.md"
                 [("", "http://x.org", "")] ("", "http://[::1", "")
                 [("", "https://y.org", "")] ValueError).
Defined.

(** C4 as stated fails: the target of [[a]( http://x.org )] stands in the
    document between two spaces, and the link recorded is [http://x.org]
    without them. *)
Lemma external_links_not_verbatim :
  ~ (forall (os : OS) (content base_dir : string) (result result' : MD_ParsedResult),
        _extract_links os content base_dir result = Ok result' ->
        external_links result'
        = external_links result
          ++ List.filter (fun target => is_external os (strip target))
                         (map (fun m => m.1.2) (link_matches content))).
Proof.
  intros H.
  pose (content := "[a]( http://x.org )").
  specialize (H (Posix.system []) content "/blog"
                (empty_result content "/blog/post.md" "/blog")).
  destruct (_extract_links (Posix.system []) content "/blog"
              (empty_result content "/blog/post.md" "/blog")) as [r|e] eqn:E;
    [|vm_compute in E; discriminate].
  specialize (H r eq_refl).
  vm_compute in E. injection E as <-.
  vm_compute in H. discriminate.
Qed.

(** C1 (the code departs from it): the document holds [![hero](cover.jpg)]
    and the annotation [<!-- cover: cover.jpg -->], and [cover.jpg] exists
    beside it.  [parse] records the asset of the body, stores the cover
    path in the parser, and leaves [cover_image] unset. *)
Theorem parse_cover_scenario :
  parse Scenario.cover_system {| cover_path := None |} "/blog/post.md"
  = Ok ({| cover_path := Some "cover.jpg" |},
        {| content := Scenario.cover_doc;
           file_path := "/blog/post.md";
           dir_path := "/blog";
           external_links := [];
           local_assets := [Scenario.hero_asset];
           cover_image := None;
           front_matter := ∅ |}).
Proof. vm_compute. reflexivity. Qed.

(** ** Equality of assets and the upload set *)

Lemma Asset_eq_true (a b : Asset) : Asset_eq a b = true <-> a = b.
Proof.
  unfold Asset_eq. split.
  - intros H.
    apply andb_prop in H as [H Hname].
    apply andb_prop in H as [H Himg].
    apply andb_prop in H as [Horig Habs].
    apply String.eqb_eq in Horig, Habs, Hname. apply Bool.eqb_prop in Himg.
    destruct a, b; simpl in *; congruence.
  - intros ->. rewrite !String.eqb_refl, Bool.eqb_reflx. reflexivity.
Qed.

(** C3 (as the code has it): two assets are equal exactly when all four
    fields agree: the original path, the absolute path, the image flag and
    the file name; equal assets have the same original path, and the cover
    is added to the upload set unless an asset of the body equals it in
    this sense. *)
Theorem Asset_eq_all_fields (a b : Asset) :
  (Asset_eq a b = true
   <-> original_path a = original_path b
       /\ absolute_path a = absolute_path b
       /\ is_image a = is_image b
       /\ file_name a = file_name b)
  /\ (Asset_eq a b = true -> original_path a = original_path b)
  /\ (forall result : MD_ParsedResult,
        cover_image result = Some b ->
        assets_to_upload result
        = if existsb (fun x => Asset_eq x b) (local_assets result)
          then local_assets result
          else local_assets result ++ [b]).
Proof.
  split; [|split].
  - rewrite Asset_eq_true. split.
    + now intros ->.
    + destruct a, b; simpl. intros (-> & -> & -> & ->). reflexivity.
  - rewrite Asset_eq_true. now intros ->.
  - intros result Hcover. unfold assets_to_upload. rewrite Hcover.
    now destruct (existsb _ _).
Qed.

(** C3 as stated fails: the asset of [![hero](cover.jpg)] and the asset of
    the plain link [[hero](cover.jpg)] have the same original path and are
    not equal, and with the first as cover and the second in the body both
    are uploaded. *)
Lemma Asset_eq_not_by_reference :
  ~ (forall a b : Asset,
        Asset_eq a b = true <-> original_path a = original_path b).
Proof.
  intros H.
  destruct (H Scenario.hero_asset Scenario.hero_link_asset) as [_ Heq].
  specialize (Heq eq_refl). vm_compute in Heq. discriminate.
Qed.

Example assets_to_upload_same_reference_twice :
  assets_to_upload
    {| content := ""; file_path := "/blog/post.md"; dir_path := "/blog";
       external_links := [];
       local_assets := [Scenario.hero_link_asset];
       cover_image := Some Scenario.hero_asset;
       front_matter := ∅ |}
  = [Scenario.hero_link_asset; Scenario.hero_asset].
Proof. reflexivity. Qed.

Example assets_to_upload_equal_cover_once :
  assets_to_upload
    {| content := ""; file_path := "/blog/post.md"; dir_path := "/blog";
       external_links := [];
       local_assets := [Scenario.hero_asset];
       cover_image := Some Scenario.hero_asset;
       front_matter := ∅ |}
  = [Scenario.hero_asset].
Proof. reflexivity. Qed.

(** ** The upload loop *)

Section UploadFacts.
Variable Server : Type.
Variable read_bytes : string -> outcome string.
Variable guess_type : string -> option string.
Variable wp_uploadFile :
  Server -> string -> string -> string -> Server * outcome (option string * option Z).

Abbreviation step := (upload_step Server read_bytes guess_type wp_uploadFile).
Abbreviation single := (_upload_single_asset Server read_bytes guess_type wp_uploadFile).

(** A step inserts the same key into both maps, or into neither. *)
Lemma upload_step_keys (file_prefix : string)
      (st : Server * gmap string string * gmap string Z) (asset : Asset) :
  dom st.1.2 =@{gset string} dom st.2 ->
  dom (step file_prefix st asset).1.2 =@{gset string} dom (step file_prefix st asset).2.
Proof.
  destruct st as [[server link_map] asset_id_map]. simpl. intros Hdom.
  unfold upload_step.
  destruct (single server asset file_prefix) as [server' [[url media_id]|e]];
    simpl; [|exact Hdom].
  destruct (truthy_str url && truthy_int media_id); simpl; [|exact Hdom].
  now rewrite !dom_insert_L, Hdom.
Qed.

(** An upload that raises, or that returns without both a URL and an
    identifier, changes neither map. *)
Lemma upload_step_failed (file_prefix : string) (server : Server)
      (link_map : gmap string string) (asset_id_map : gmap string Z) (asset : Asset) :
  match (single server asset file_prefix).2 with
  | Ok (url, media_id) => truthy_str url && truthy_int media_id = false
  | Raise _ => True
  end ->
  (step file_prefix (server, link_map, asset_id_map) asset).1.2 = link_map
  /\ (step file_prefix (server, link_map, asset_id_map) asset).2 = asset_id_map.
Proof.
  unfold upload_step.
  destruct (single server asset file_prefix) as [server' [[url media_id]|e]]; simpl.
  - intros ->. now split.
  - now split.
Qed.

Lemma fold_upload_step_keys (file_prefix : string) (assets : list Asset) :
  forall st : Server * gmap string string * gmap string Z,
    dom st.1.2 =@{gset string} dom st.2 ->
    dom (fold_left (step file_prefix) assets st).1.2
    =@{gset string} dom (fold_left (step file_prefix) assets st).2.
Proof.
  induction assets as [|asset assets IH]; intros st Hdom; simpl; [exact Hdom|].
  apply IH. now apply upload_step_keys.
Qed.

(** C9: the two maps [upload_assets] returns have the same keys: a
    reference is a key of the URL map exactly when it is a key of the
    identifier map. *)
Theorem upload_assets_same_keys (server : Server) (assets : list Asset)
        (file_prefix : string) :
  let '(_, link_map, asset_id_map) :=
    upload_assets Server read_bytes guess_type wp_uploadFile server assets file_prefix in
  dom link_map =@{gset string} dom asset_id_map
  /\ forall key : string, is_Some (link_map !! key) <-> is_Some (asset_id_map !! key).
Proof.
  pose proof (fold_upload_step_keys file_prefix assets (server, ∅, ∅)) as H.
  assert (Hres : dom (upload_assets Server read_bytes guess_type wp_uploadFile
                        server assets file_prefix).1.2
                 =@{gset string}
                 dom (upload_assets Server read_bytes guess_type wp_uploadFile
                        server assets file_prefix).2).
  { unfold upload_assets. destruct assets as [|a assets'].
    - simpl. now rewrite !dom_empty_L.
    - apply H. simpl. now rewrite !dom_empty_L. }
  destruct (upload_assets _ _ _ _ _ _ _) as [[server' link_map] asset_id_map].
  simpl in Hres. split; [exact Hres|].
  intros key. rewrite <- !elem_of_dom. now rewrite Hres.
Qed.

End UploadFacts.

(** ** The front-matter extractor *)

Section FrontMatter.
Import PyStr Re.

Lemma lstrip_empty_iff (s : string) :
  lstrip s = EmptyString <-> all_chars isspace s = true.
Proof.
  induction s as [|c s IH]; simpl; [easy|].
  destruct (isspace c); simpl; [exact IH | easy].
Qed.

Lemma rstrip_empty_iff (s : string) :
  rstrip s = EmptyString <-> all_chars isspace s = true.
Proof.
  induction s as [|c s IH]; simpl; [easy|].
  destruct (rstrip s) as [|a r].
  - destruct (isspace c); simpl; [|easy].
    split; [intros _; now apply IH | reflexivity].
  - split; [discriminate|]. intros H. apply andb_prop in H as [_ H].
    apply IH in H. discriminate.
Qed.

(** What is left of a text stripped on the left starts with a character
    that is not white space. *)
Lemma lstrip_head (s : string) (c : ascii) (t : string) :
  lstrip s = String c t -> isspace c = false.
Proof.
  induction s as [|a s IH]; simpl; [discriminate|].
  destruct (isspace a) eqn:E; [exact IH|]. now intros [= <- _].
Qed.

Lemma lstrip_fixed (c : ascii) (t : string) :
  isspace c = false -> lstrip (String c t) = String c t.
Proof. intros H. simpl. now rewrite H. Qed.

Lemma lstrip_idem (s : string) : lstrip (lstrip s) = lstrip s.
Proof.
  destruct (lstrip s) as [|c t] eqn:E; [reflexivity|].
  apply lstrip_fixed. now apply (lstrip_head s c t).
Qed.

Lemma rstrip_cons_head (c : ascii) (t : string) :
  isspace c = false -> exists r, rstrip (String c t) = String c r.
Proof.
  intros H. simpl. destruct (rstrip t); rewrite ?H; eauto.
Qed.

Lemma rstrip_idem (s : string) : rstrip (rstrip s) = rstrip s.
Proof.
  induction s as [|c s IH]; simpl; [reflexivity|].
  destruct (rstrip s) as [|a r] eqn:E.
  - destruct (isspace c) eqn:Ec; simpl; [reflexivity | now rewrite Ec].
  - change (rstrip (String c (String a r))) with
      (match rstrip (String a r) with
       | EmptyString => if isspace c then EmptyString else String c EmptyString
       | x => String c x
       end).
    now rewrite IH.
Qed.

(** Stripping on the right first does not change what [strip] gives. *)
Lemma strip_rstrip (s : string) : strip (rstrip s) = strip s.
Proof.
  unfold strip. induction s as [|c s IH]; [reflexivity|].
  destruct (isspace c) eqn:Ec.
  - simpl lstrip at 2. rewrite Ec.
    simpl rstrip at 2. destruct (rstrip s) as [|a r] eqn:E.
    + rewrite Ec. simpl.
      apply rstrip_empty_iff in E. apply lstrip_empty_iff in E. now rewrite E.
    + simpl lstrip. rewrite Ec. exact IH.
  - rewrite (lstrip_fixed c s Ec).
    destruct (rstrip_cons_head c s Ec) as [r Hr].
    rewrite Hr, (lstrip_fixed c r Ec), <- Hr. apply rstrip_idem.
Qed.

Lemma strip_lstrip (s : string) : strip (lstrip s) = strip s.
Proof. unfold strip. now rewrite lstrip_idem. Qed.

Lemma strip_nonempty (s : string) :
  nonempty (strip s) = negb (all_chars isspace s).
Proof.
  unfold strip. destruct (lstrip s) as [|c t] eqn:E.
  - apply lstrip_empty_iff in E. now rewrite E.
  - pose proof (lstrip_head s c t E) as Hc.
    destruct (rstrip_cons_head c t Hc) as [r ->]. simpl.
    destruct (all_chars isspace s) eqn:Hall; [|reflexivity].
    apply lstrip_empty_iff in Hall. congruence.
Qed.

Lemma startswith_char (a c : ascii) (t : string) :
  startswith (String c t) (String a EmptyString) = Ascii.eqb a c.
Proof. simpl. destruct t; apply andb_true_r. Qed.

Lemma startswith_rstrip_hash (t : string) :
  startswith (rstrip t) "#" = startswith t "#".
Proof.
  destruct t as [|c t]; [reflexivity|].
  destruct (isspace c) eqn:Ec.
  - assert (Hne : Ascii.eqb "#" c = false).
    { apply Ascii.eqb_neq. intros <-. discriminate. }
    rewrite (startswith_char "#" c t), Hne.
    simpl rstrip. rewrite Ec.
    destruct (rstrip t); [reflexivity | now rewrite startswith_char].
  - destruct (rstrip_cons_head c t Ec) as [r ->].
    now rewrite !startswith_char.
Qed.

Lemma split_once_lstrip (s : string) :
  split_once ":" (lstrip s)
  = option_map (fun '(k, v) => (lstrip k, v)) (split_once ":" s).
Proof.
  induction s as [|c s IH]; simpl; [reflexivity|].
  destruct (isspace c) eqn:Ec.
  - assert (Hne : Ascii.eqb c ":" = false).
    { apply Ascii.eqb_neq. intros ->. discriminate. }
    rewrite Hne, IH.
    destruct (split_once ":" s) as [[k v]|]; simpl; [now rewrite Ec | reflexivity].
  - simpl. destruct (Ascii.eqb c ":"); [reflexivity|].
    destruct (split_once ":" s) as [[k v]|]; simpl; [now rewrite Ec | reflexivity].
Qed.

Lemma split_once_rstrip (s : string) :
  split_once ":" (rstrip s)
  = option_map (fun '(k, v) => (k, rstrip v)) (split_once ":" s).
Proof.
  induction s as [|c s IH]; simpl; [reflexivity|].
  destruct (Ascii.eqb c ":") eqn:Ec.
  - apply Ascii.eqb_eq in Ec. subst c. simpl.
    destruct (rstrip s); reflexivity.
  - destruct (rstrip s) as [|a r] eqn:E.
    + simpl in IH.
      destruct (split_once ":" s) as [[k v]|]; [discriminate|]. simpl.
      destruct (isspace c); simpl; [reflexivity | now rewrite Ec].
    + change (split_once ":" (String c (String a r))) with
        (if Ascii.eqb c ":" then Some (EmptyString, String a r)
         else match split_once ":" (String a r) with
              | Some (k, v) => Some (String c k, v)
              | None => None
              end).
      rewrite Ec, IH.
      now destruct (split_once ":" s) as [[k v]|].
Qed.

(** The step of the loop does what the line declares. *)
Lemma front_matter_line_declared (fm : gmap string string) (line : string) :
  front_matter_line fm line
  = match declared_entry line with
    | Some (k, v) => <[k := v]> fm
    | None => fm
    end.
Proof.
  unfold front_matter_line, declared_entry.
  rewrite strip_nonempty, negb_involutive.
  destruct (all_chars isspace line); [reflexivity|]. simpl.
  unfold strip at 1 2. rewrite startswith_rstrip_hash.
  destruct (startswith (lstrip line) "#"); [reflexivity|].
  rewrite split_once_rstrip, split_once_lstrip.
  destruct (split_once ":" line) as [[k v]|]; simpl; [|reflexivity].
  now rewrite strip_lstrip, strip_rstrip.
Qed.

Lemma fold_front_matter_lookup (key : string) (lines : list string) :
  forall fm : gmap string string,
    fold_left front_matter_line lines fm !! key
    = match declared_value key lines with
      | Some v => Some v
      | None => fm !! key
      end.
Proof.
  induction lines as [|line lines IH]; intros fm; simpl; [reflexivity|].
  rewrite IH. destruct (declared_value key lines); [reflexivity|].
  rewrite front_matter_line_declared.
  destruct (declared_entry line) as [[k v]|]; [|reflexivity].
  destruct (String.eqb k key) eqn:E.
  - apply String.eqb_eq in E. subst. apply lookup_insert_eq.
  - apply String.eqb_neq in E. now apply lookup_insert_ne.
Qed.

(** The front matter is read off the block the pattern captures. *)
Lemma _extract_front_matter_lookup (content key : string) :
  _extract_front_matter content !! key
  = match front_matter_block content with
    | Some block => declared_value key (split nl block)
    | None => None
    end.
Proof.
  unfold _extract_front_matter, front_matter_block.
  destruct (search _front_matter_pattern content) as [m|].
  - rewrite fold_front_matter_lookup, lookup_empty.
    now destruct (declared_value key _).
  - apply lookup_empty.
Qed.

Lemma cmatch_lit_refl (c : ascii) : cmatch (CLit c) c = true.
Proof. apply Ascii.eqb_refl. Qed.

(** A greedy run followed by a continuation that always succeeds. *)
Lemma star_greedy_some {A : Type} (k : cclass) (cont : string -> nat -> option A)
      (P : A -> Prop) :
  (forall s pos, exists x, cont s pos = Some x /\ P x) ->
  forall s pos, exists x, star_greedy k cont s pos = Some x /\ P x.
Proof.
  intros Hcont. induction s as [|c s IH]; intros pos; simpl; [apply Hcont|].
  destruct (cmatch k c); [|apply Hcont].
  destruct (IH (S pos)) as (x & -> & Hx). eauto.
Qed.

(** A lazy run of any characters stops at the first place where the
    continuation succeeds. *)
Lemma star_lazy_first {A : Type} (cont : string -> nat -> option A) (x : A) :
  forall u s pos,
    (forall i, i < String.length u -> cont (drop i (u +:+ s)) (pos + i) = None) ->
    cont s (pos + String.length u) = Some x ->
    star_lazy CAny cont (u +:+ s) pos = Some x.
Proof.
  induction u as [|c u IH]; intros s pos Hnone Hsome.
  - simpl in Hsome. rewrite Nat.add_0_r in Hsome.
    rewrite app_nil. destruct s; simpl; now rewrite Hsome.
  - rewrite app_cons. simpl.
    pose proof (Hnone 0 ltac:(simpl; lia)) as H0. simpl in H0.
    rewrite Nat.add_0_r, app_cons in H0. rewrite H0.
    apply IH.
    + intros i Hi. specialize (Hnone (S i) ltac:(simpl; lia)).
      rewrite app_cons in Hnone. simpl in Hnone.
      now rewrite Nat.add_succ_r in Hnone.
    + simpl in Hsome. now rewrite Nat.add_succ_r in Hsome.
Qed.

(** What follows the block in the pattern fails where the text does not
    go on with a line break and three dashes. *)
Lemma close_fails {A : Type} (r : regex) (t : string) (pos : nat) (cs : caps)
      (k : string -> nat -> caps -> option A) :
  startswith t (String nl "---") = false ->
  rmatch (RSeq (RChr (CLit nl)) (RSeq (RLit "---") r)) t pos cs k = None.
Proof.
  intros H. cbn [rmatch RLit]. unfold cmatch.
  destruct t as [|c1 t]; [reflexivity|].
  cbn [startswith] in H.
  destruct (Ascii.eqb nl c1); [|reflexivity].
  destruct t as [|c2 t]; [reflexivity|].
  cbn [startswith andb] in H.
  destruct (Ascii.eqb "-" c2); [|reflexivity].
  destruct t as [|c3 t]; [reflexivity|].
  cbn [startswith andb] in H.
  destruct (Ascii.eqb "-" c3); [|reflexivity].
  destruct t as [|c4 t]; [reflexivity|].
  cbn [startswith andb] in H.
  destruct (Ascii.eqb "-" c4); [|reflexivity].
  destruct t; discriminate.
Qed.

Lemma close_matches {A : Type} (r : regex) (rest : string) (pos : nat) (cs : caps)
      (k : string -> nat -> caps -> option A) :
  rmatch (RSeq (RChr (CLit nl)) (RSeq (RLit "---") r))
         (String nl ("---" +:+ rest)) pos cs k
  = rmatch r rest (S (S (S (S pos)))) cs k.
Proof.
  rewrite !app_cons, app_nil. cbn [rmatch RLit].
  now rewrite !cmatch_lit_refl.
Qed.

Lemma search_head (r : regex) (s : string) (m : Match) :
  match_at r s 0 = Some m -> search r s = Some m.
Proof.
  intros H. unfold search, finditer.
  destruct s as [|c s]; simpl; rewrite H; [reflexivity|].
  now destruct (m_len m).
Qed.

Lemma open_fails {A : Type} (r : regex) (t : string) (pos : nat) (cs : caps)
      (k : string -> nat -> caps -> option A) :
  startswith t "---" = false ->
  rmatch (RSeq (RLit "---") r) t pos cs k = None.
Proof.
  intros H. cbn [rmatch RLit]. unfold cmatch.
  destruct t as [|c1 t]; [reflexivity|].
  cbn [startswith] in H.
  destruct (Ascii.eqb "-" c1); [|reflexivity].
  destruct t as [|c2 t]; [reflexivity|].
  cbn [startswith andb] in H.
  destruct (Ascii.eqb "-" c2); [|reflexivity].
  destruct t as [|c3 t]; [reflexivity|].
  cbn [startswith andb] in H.
  destruct (Ascii.eqb "-" c3); [|reflexivity].
  destruct t; discriminate.
Qed.

(** The pattern is anchored: it matches nowhere but at the start. *)
Lemma scan_anchored (s : string) :
  forall pos skip, matches_of (scan _front_matter_pattern (S pos) skip s) = [].
Proof.
  induction s as [|c s IH]; intros pos [|n]; simpl; try reflexivity; apply IH.
Qed.

(** A text that does not start with three dashes has no block. *)
Lemma front_matter_block_absent (content : string) :
  startswith content "---" = false -> front_matter_block content = None.
Proof.
  intros H. unfold front_matter_block, search, finditer.
  assert (Hat : match_at _front_matter_pattern content 0 = None).
  { unfold match_at, _front_matter_pattern.
    change (rmatch (RSeq RBegin ?r) ?s 0 ?cs ?k) with (rmatch r s 0 cs k).
    now apply open_fails. }
  destruct content as [|c s]; cbn [scan]; rewrite Hat; [reflexivity|].
  cbn [matches_of]. now rewrite scan_anchored.
Qed.

Lemma startswith_close (tail : string) :
  startswith (String nl ("---" +:+ tail)) (String nl "---") = true.
Proof. apply (startswith_app (String nl "---") tail). Qed.

Lemma before_close_eq (s : string) :
  before_close s
  = if startswith s (String nl "---") then Some EmptyString
    else match s with
         | EmptyString => None
         | String c s' =>
             match before_close s' with
             | Some t => Some (String c t)
             | None => None
             end
         end.
Proof. now destruct s. Qed.

Lemma before_close_found (g tail : string) :
  before_close (g +:+ String nl ("---" +:+ tail)) <> None.
Proof.
  induction g as [|c g IH].
  - rewrite app_nil, before_close_eq, startswith_close. discriminate.
  - rewrite app_cons, before_close_eq.
    destruct (startswith _ _); [discriminate|].
    destruct (before_close _); [discriminate | contradiction].
Qed.

(** What [before_close] returns is followed by a line break and three
    dashes, and no line break inside it is. *)
Lemma before_close_spec (s : string) :
  forall block,
    before_close s = Some block ->
    (exists tail, s = block +:+ String nl ("---" +:+ tail))
    /\ forall i, i < String.length block ->
                 startswith (drop i s) (String nl "---") = false.
Proof.
  induction s as [|c s IH]; intros block; rewrite before_close_eq.
  - simpl. discriminate.
  - destruct (startswith (String c s) (String nl "---")) eqn:E.
    + intros [= <-]. split; [|simpl; lia].
      exists (drop 4 (String c s)).
      rewrite app_nil.
      rewrite <- (take_drop 4 (String c s)) at 1.
      change 4 with (String.length (String nl "---")) at 1.
      now rewrite (startswith_take _ _ E).
    + destruct (before_close s) as [t|]; [|discriminate].
      intros [= <-]. destruct (IH t eq_refl) as [[tail ->] Hnone].
      split; [exists tail; now rewrite app_cons|].
      intros [|i] Hi; [exact E|]. simpl in Hi. apply Hnone. lia.
Qed.

(** A text that the matcher has cut after white space: when the text
    after the blank lines has no closing line, what stands before a closing
    line is white space. *)
Lemma blank_before_close (g tail : string) :
  forall body,
    after_blank_lines (g +:+ String nl ("---" +:+ tail)) = Some body ->
    before_close body = None ->
    all_chars isspace g = true.
Proof.
  induction g as [|c g IH]; intros body; [reflexivity|].
  rewrite app_cons. cbn [after_blank_lines all_chars].
  destruct (isspace c); [|discriminate].
  destruct (after_blank_lines (g +:+ _)) as [t|] eqn:E.
  - intros [= ->] Hb. now apply (IH body).
  - destruct (Ascii.eqb c nl); [|discriminate].
    intros [= <-] Hb. now apply before_close_found in Hb.
Qed.


(** The parts of the pattern after the opening dashes: the closing line,
    the end of a match on [content], what follows the block, and what
    follows the white space after the opening dashes. *)
Abbreviation fm_close :=
  (RSeq (RChr (CLit nl)) (RSeq (RLit "---") (RStar true CSpace))).

Abbreviation fm_final content :=
  (fun (_ : string) (e : nat) (cs : caps) =>
     Some {| m_len := e - 0;
             m_group0 := take (e - 0) content;
             m_groups :=
               map (fun '(i, (a, b)) => (i, take (b - a) (drop (a - 0) content))) cs |}).

Abbreviation fm_lazy content a :=
  (fun (s2 : string) (p2 : nat) => rmatch fm_close s2 p2 [(1, (a, p2))] (fm_final content)).

Abbreviation fm_after content :=
  (fun (s1 : string) (p1 : nat) =>
     rmatch (RSeq (RChr (CLit nl)) (RSeq (RGroup 1 (RStar false CAny)) fm_close))
            s1 p1 [] (fm_final content)).

Lemma fm_final_group (content pre g tail : string) (s : string) (e : nat) (m : Match) :
  content = pre +:+ (g +:+ tail) ->
  Some {| m_len := e;
          m_group0 := s;
          m_groups :=
            map (fun '(i, (a, b)) => (i, take (b - a) (drop (a - 0) content)))
                [(1, (String.length pre, String.length pre + String.length g))] |}
  = Some m ->
  group m 1 = g.
Proof.
  intros -> [= <-]. unfold group. cbn [map m_groups group_lookup Nat.eqb].
  now rewrite Nat.sub_0_r, Nat.add_comm, Nat.add_sub, drop_app_length, take_app_length.
Qed.

(** The lazy block stops at the first closing line. *)
Lemma lazy_block_found (content pre body block : string) :
  content = pre +:+ body ->
  before_close body = Some block ->
  exists m,
    star_lazy CAny (fm_lazy content (String.length pre)) body (String.length pre) = Some m
    /\ group m 1 = block.
Proof.
  intros Hc Hb. apply before_close_spec in Hb as [[tail Hbody] Hnone].
  set (a := String.length pre).
  set (cs := [(1, (a, a + String.length block))]).
  assert (Hfinal : forall s pos,
             exists x, fm_final content s pos cs = Some x /\ group x 1 = block).
  { intros s pos. eexists. split; [reflexivity|].
    eapply (fm_final_group content pre block (String nl ("---" +:+ tail)));
      [now rewrite Hc, Hbody | reflexivity]. }
  destruct (star_greedy_some CSpace (fun s1 p1 => fm_final content s1 p1 cs)
              (fun m => group m 1 = block) Hfinal tail
              (S (S (S (S (a + String.length block))))))
    as (m & Hm & Hg).
  exists m. split; [|exact Hg].
  rewrite Hbody. apply star_lazy_first.
  - intros i Hi. apply close_fails. rewrite <- Hbody. now apply Hnone.
  - rewrite close_matches. exact Hm.
Qed.

(** Whatever the lazy block is, a closing line follows it. *)
Lemma lazy_block_inv (content pre body : string) (m : Match) :
  content = pre +:+ body ->
  star_lazy CAny (fm_lazy content (String.length pre)) body (String.length pre) = Some m ->
  exists g tail, body = g +:+ String nl ("---" +:+ tail) /\ group m 1 = g.
Proof.
  intros Hc H. apply star_lazy_inv in H as (g & s' & Hbody & H).
  destruct (startswith s' (String nl "---")) eqn:E;
    [|now rewrite close_fails in H].
  assert (Hs' : s' = String nl ("---" +:+ drop 4 s')).
  { rewrite <- (take_drop 4 s') at 1.
    change 4 with (String.length (String nl "---")) at 1.
    now rewrite (startswith_take _ _ E). }
  exists g, (drop 4 s'). split; [now rewrite Hbody, Hs' at 1|].
  rewrite Hs', close_matches in H. cbn [rmatch] in H.
  apply star_greedy_inv in H as (u & s2 & _ & H).
  eapply (fm_final_group content pre g s'); [now rewrite Hc, Hbody | exact H].
Qed.

Lemma fm_after_cons (content : string) (c : ascii) (s : string) (pos : nat) :
  fm_after content (String c s) pos
  = if Ascii.eqb nl c
    then star_lazy CAny (fm_lazy content (S pos)) s (S pos)
    else None.
Proof. reflexivity. Qed.

Lemma fm_after_nil (content : string) (pos : nat) :
  fm_after content EmptyString pos = None.
Proof. reflexivity. Qed.

Lemma isspace_nl (c : ascii) : isspace c = false -> Ascii.eqb nl c = false.
Proof. intros H. apply Ascii.eqb_neq. intros <-. discriminate. Qed.

(** White space without a line break after the opening dashes: no match. *)
Lemma greedy_no_break (content : string) (rest : string) :
  forall pos,
    after_blank_lines rest = None ->
    star_greedy CSpace (fm_after content) rest pos = None.
Proof.
  induction rest as [|c rest IH]; intros pos; [reflexivity|].
  cbn [after_blank_lines star_greedy]. change (cmatch CSpace c) with (isspace c).
  destruct (isspace c) eqn:Ec.
  - destruct (after_blank_lines rest); [discriminate|].
    rewrite Ascii.eqb_sym. destruct (Ascii.eqb nl c) eqn:En; [discriminate|].
    intros _. rewrite IH by reflexivity. now rewrite fm_after_cons, En.
  - intros _. now rewrite fm_after_cons, (isspace_nl c Ec).
Qed.


Lemma app_snoc (pre : string) (c : ascii) (s : string) :
  pre +:+ String c s = (pre +:+ String c EmptyString) +:+ s.
Proof. now rewrite app_assoc_str, app_cons, app_nil. Qed.

Lemma length_snoc (pre : string) (c : ascii) :
  String.length (pre +:+ String c EmptyString) = S (String.length pre).
Proof. rewrite length_app_str. simpl. lia. Qed.

(** The white space after the opening dashes, the longest run first: the
    block is the one that starts after the last line break of the white
    space; the matcher falls back on an earlier line break only for a
    block of white space. *)
Lemma greedy_block (content : string) (rest : string) :
  forall pre,
    content = pre +:+ rest ->
    match after_blank_lines rest with
    | Some body =>
        match before_close body with
        | Some block =>
            exists m,
              star_greedy CSpace (fm_after content) rest (String.length pre) = Some m
              /\ group m 1 = block
        | None =>
            forall m,
              star_greedy CSpace (fm_after content) rest (String.length pre) = Some m ->
              all_chars isspace (group m 1) = true
        end
    | None => star_greedy CSpace (fm_after content) rest (String.length pre) = None
    end.
Proof.
  induction rest as [|c rest IH]; intros pre Hc; [reflexivity|].
  pose proof (greedy_no_break content (String c rest) (String.length pre)) as Hno.
  specialize (IH (pre +:+ String c EmptyString)).
  rewrite length_snoc in IH. rewrite app_snoc in Hc. specialize (IH Hc).
  cbn [after_blank_lines] in *.
  destruct (isspace c) eqn:Ec; [|now apply Hno].
  clear Hno. cbn [star_greedy]. change (cmatch CSpace c) with (isspace c). rewrite Ec.
  destruct (after_blank_lines rest) as [body|] eqn:Eb.
  - (* a later line break: the fall-back is this character *)
    destruct (before_close body) as [block|] eqn:Ebl.
    + destruct IH as (m & -> & Hg). now exists m.
    + intros m.
      destruct (star_greedy CSpace (fm_after content) rest (S (String.length pre)))
        as [m'|] eqn:Eg.
      * intros [= <-]. now apply IH.
      * rewrite fm_after_cons. destruct (Ascii.eqb nl c); [|discriminate].
        intros H. rewrite <- (length_snoc pre c) in H.
        apply (lazy_block_inv content _ rest m Hc) in H as (g & tail & Hrest & ->).
        rewrite Hrest in Eb. now apply (blank_before_close g tail body).
  - rewrite IH, fm_after_cons, Ascii.eqb_sym.
    destruct (Ascii.eqb nl c); [|reflexivity].
    rewrite <- (length_snoc pre c).
    destruct (before_close rest) as [block|] eqn:Ebl.
    + now apply lazy_block_found.
    + intros m H.
      apply (lazy_block_inv content _ rest m Hc) in H as (g & tail & Hrest & _).
      rewrite Hrest in Ebl. now apply before_close_found in Ebl.
Qed.

(** The pattern is anchored at the start: [search] is a match there. *)
Lemma search_front_matter (content : string) :
  search _front_matter_pattern content = match_at _front_matter_pattern content 0.
Proof.
  destruct (match_at _front_matter_pattern content 0) as [m|] eqn:E.
  - now apply search_head.
  - unfold search, finditer.
    destruct content as [|c s]; cbn [scan]; rewrite E; [reflexivity|].
    cbn [matches_of]. now rewrite scan_anchored.
Qed.

Lemma startswith_dashes (content : string) :
  startswith content "---" = true -> content = "---" +:+ drop 3 content.
Proof.
  intros E. rewrite <- (take_drop 3 content) at 1.
  change 3 with (String.length "---") at 1.
  now rewrite (startswith_take _ _ E).
Qed.

Lemma match_at_front_matter (rest : string) :
  match_at _front_matter_pattern ("---" +:+ rest) 0
  = star_greedy CSpace (fm_after ("---" +:+ rest)) rest 3.
Proof.
  unfold match_at, _front_matter_pattern.
  rewrite !app_cons, app_nil. cbn [rmatch RLit]. now rewrite !cmatch_lit_refl.
Qed.

(** The block the pattern captures is the block in words, but for a
    block of white space that the pattern may capture where the words
    find none. *)
Lemma front_matter_block_text (content : string) :
  match front_matter_text content with
  | Some block => front_matter_block content = Some block
  | None =>
      match front_matter_block content with
      | Some block => all_chars isspace block = true
      | None => True
      end
  end.
Proof.
  unfold front_matter_text.
  destruct (startswith content "---") eqn:E;
    [|now rewrite front_matter_block_absent].
  unfold front_matter_block. rewrite search_front_matter.
  apply startswith_dashes in E. set (rest := drop 3 content) in *.
  clearbody rest. subst content. rewrite match_at_front_matter.
  pose proof (greedy_block ("---" +:+ rest) rest "---" eq_refl) as H.
  change (String.length "---") with 3 in H.
  destruct (after_blank_lines rest) as [body|].
  - destruct (before_close body) as [block|].
    + destruct H as (m & -> & Hg). now rewrite Hg.
    + destruct (star_greedy _ _ _ _) as [m|]; [now apply H | exact I].
  - now rewrite H.
Qed.

End FrontMatter.

Lemma Asset_eq_all_fields_witness :
  Asset_eq Scenario.hero_asset Scenario.hero_asset = true
  /\ Asset_eq Scenario.hero_link_asset Scenario.hero_asset = false.
Proof.
  destruct (Asset_eq_all_fields Scenario.hero_asset Scenario.hero_asset)
    as ([_ Hsame] & _).
  destruct (Asset_eq_all_fields Scenario.hero_link_asset Scenario.hero_asset)
    as ([Hfields _] & _).
  split.
  - apply Hsame. repeat split.
  - destruct (Asset_eq Scenario.hero_link_asset Scenario.hero_asset) eqn:E;
      [|reflexivity].
    destruct (Hfields eq_refl) as (_ & _ & Himg & _). discriminate.
Defined.

(** ** [process_list_args] *)

Section ListArgs.
Import PyStr.

Lemma split_nonempty (sep : ascii) (s : string) : split sep s <> [].
Proof.
  induction s as [|c s IH]; simpl; [discriminate|].
  destruct (Ascii.eqb c sep); [discriminate|].
  destruct (split sep s); [contradiction | discriminate].
Qed.

Lemma split_no_sep (sep : ascii) (s : string) :
  contains_char sep s = false -> split sep s = [s].
Proof.
  induction s as [|c s IH]; simpl; [reflexivity|].
  intros H. apply orb_false_elim in H as [Hc Hs].
  rewrite Hc, (IH Hs). reflexivity.
Qed.

Lemma split_parts_no_sep (sep : ascii) (s : string) :
  Forall (fun p => contains_char sep p = false) (split sep s).
Proof.
  induction s as [|c s IH]; simpl; [now repeat constructor|].
  destruct (Ascii.eqb c sep) eqn:Ec; [now constructor|].
  destruct (split sep s) as [|hd tl]; [repeat constructor; simpl; now rewrite Ec|].
  inversion IH; subst. constructor; [simpl; now rewrite Ec | assumption].
Qed.

Lemma split_app (sep : ascii) (a b : string) :
  split sep (a +:+ String sep b) = split sep a ++ split sep b.
Proof.
  induction a as [|c a IH].
  - rewrite app_nil. simpl. now rewrite Ascii.eqb_refl.
  - rewrite app_cons. simpl. destruct (Ascii.eqb c sep); [now rewrite IH|].
    rewrite IH. pose proof (split_nonempty sep a) as Hne.
    now destruct (split sep a).
Qed.

Lemma lstrip_no_char (c : ascii) (s : string) :
  contains_char c s = false -> contains_char c (lstrip s) = false.
Proof.
  induction s as [|a s IH]; simpl; [reflexivity|].
  intros H. destruct (isspace a); [|exact H].
  apply orb_false_elim in H as [_ H]. now apply IH.
Qed.

Lemma rstrip_no_char (c : ascii) (s : string) :
  contains_char c s = false -> contains_char c (rstrip s) = false.
Proof.
  induction s as [|a s IH]; simpl; [reflexivity|].
  intros H. apply orb_false_elim in H as [Ha H]. specialize (IH H).
  destruct (rstrip s) as [|b r].
  - destruct (isspace a); simpl; [reflexivity | now rewrite Ha].
  - simpl in *. now rewrite Ha, IH.
Qed.

Lemma strip_no_char (c : ascii) (s : string) :
  contains_char c s = false -> contains_char c (strip s) = false.
Proof. intros H. unfold strip. now apply rstrip_no_char, lstrip_no_char. Qed.

Lemma strip_idem (s : string) : strip (strip s) = strip s.
Proof.
  unfold strip at 2. now rewrite strip_rstrip, strip_lstrip.
Qed.

(** The test for a comma changes nothing: both branches give the
    stripped non-empty parts. *)
Lemma process_item_parts (item : string) :
  process_item item
  = map strip (List.filter (fun p => nonempty (strip p)) (split "," item)).
Proof.
  unfold process_item. destruct (contains_char "," item) eqn:E; [reflexivity|].
  rewrite (split_no_sep _ _ E). simpl. now destruct (nonempty (strip item)).
Qed.

Lemma fold_process_items (l : list string) :
  forall acc, fold_left (fun result item => result ++ process_item item) l acc
              = acc ++ flat_map process_item l.
Proof.
  induction l as [|item l IH]; intros acc; simpl; [now rewrite app_nil_r|].
  now rewrite IH, app_assoc.
Qed.

Lemma process_list_args_flat_map (l : list string) :
  process_list_args l = flat_map process_item l.
Proof. unfold process_list_args. now rewrite fold_process_items. Qed.

Lemma process_item_clean (item : string) :
  Forall (fun x => nonempty x = true /\ strip x = x /\ contains_char "," x = false)
         (process_item item).
Proof.
  rewrite process_item_parts.
  pose proof (split_parts_no_sep "," item) as Hparts.
  induction (split "," item) as [|p ps IH]; simpl; [constructor|].
  inversion Hparts; subst.
  destruct (nonempty (strip p)) eqn:E; [|now apply IH].
  simpl. constructor; [|now apply IH].
  split; [exact E|]. split; [apply strip_idem | now apply strip_no_char].
Qed.

(** X1: every argument [process_list_args] returns is non-empty, has no
    white space at either end and holds no comma. *)
Theorem process_list_args_clean (args_list : list string) :
  Forall (fun x => nonempty x = true /\ strip x = x /\ contains_char "," x = false)
         (process_list_args args_list).
Proof.
  rewrite process_list_args_flat_map.
  induction args_list as [|item l IH]; simpl; [constructor|].
  apply Forall_app. split; [apply process_item_clean | exact IH].
Qed.

Lemma process_clean_items (l : list string) :
  Forall (fun x => nonempty x = true /\ strip x = x /\ contains_char "," x = false) l ->
  process_list_args l = l.
Proof.
  rewrite process_list_args_flat_map.
  induction l as [|x l IH]; intros H; [reflexivity|].
  inversion H as [|? ? (Hne & Hstrip & Hcomma) Hl]; subst.
  simpl. rewrite (IH Hl). unfold process_item.
  now rewrite Hcomma, Hstrip, Hne.
Qed.

(** X2: processing a processed list changes nothing. *)
Theorem process_list_args_idempotent (args_list : list string) :
  process_list_args (process_list_args args_list) = process_list_args args_list.
Proof. apply process_clean_items, process_list_args_clean. Qed.

(** X3: two arguments given in one item, separated by a comma, count as
    the same two arguments given one after the other, wherever they stand
    in the list. *)
Theorem process_list_args_comma_joined (pre post : list string) (a b : string) :
  process_list_args (pre ++ (a +:+ String "," b) :: post)
  = process_list_args (pre ++ a :: b :: post).
Proof.
  rewrite !process_list_args_flat_map, !flat_map_app. f_equal.
  simpl. rewrite app_assoc. f_equal.
  rewrite !process_item_parts, split_app, List.filter_app, map_app.
  reflexivity.
Qed.

End ListArgs.

(** ** The front-matter block *)

Section FrontMatterBlock.
Import PyStr Re.

(** A text of white space declares nothing. *)
Lemma split_blank (s : string) :
  all_chars isspace s = true ->
  Forall (fun line => all_chars isspace line = true) (split nl s).
Proof.
  induction s as [|c s IH]; simpl; [now repeat constructor|].
  intros H. apply andb_prop in H as [Hc Hs]. specialize (IH Hs).
  destruct (Ascii.eqb c nl); [now constructor|].
  destruct (split nl s) as [|hd tl]; [now repeat constructor; simpl; rewrite Hc|].
  apply Forall_cons in IH as [Hhd Htl]. constructor; [|exact Htl].
  simpl. now rewrite Hc.
Qed.

Lemma declared_value_blank (key : string) (lines : list string) :
  Forall (fun line => all_chars isspace line = true) lines ->
  declared_value key lines = None.
Proof.
  induction 1 as [|line lines Hline _ IH]; [reflexivity|].
  simpl. rewrite IH. unfold declared_entry. now rewrite Hline.
Qed.


(** The front matter is read off the block in words. *)
Lemma _extract_front_matter_text (content key : string) :
  _extract_front_matter content !! key
  = match front_matter_text content with
    | Some block => declared_value key (split nl block)
    | None => None
    end.
Proof.
  rewrite _extract_front_matter_lookup.
  pose proof (front_matter_block_text content) as H.
  destruct (front_matter_text content) as [block|]; [now rewrite H|].
  destruct (front_matter_block content) as [block|]; [|reflexivity].
  now apply declared_value_blank, split_blank.
Qed.

(** White space that ends a line is passed over, up to the last line
    break it holds. *)
Lemma after_blank_lines_skip (w s : string) :
  all_chars isspace w = true ->
  after_blank_lines (w +:+ String nl s)
  = match after_blank_lines s with
    | Some t => Some t
    | None => Some s
    end.
Proof.
  induction w as [|c w IH]; intros H.
  - rewrite app_nil. cbn [after_blank_lines].
    change (isspace nl) with true. cbv iota. now rewrite Ascii.eqb_refl.
  - rewrite app_cons. cbn [after_blank_lines all_chars] in *.
    apply andb_prop in H as [-> Hw]. rewrite (IH Hw).
    now destruct (after_blank_lines s).
Qed.

(** A line that is not blank holds no line break before its first
    character that is not white space. *)
Lemma after_blank_lines_line (line s : string) :
  contains_char nl line = false ->
  all_chars isspace line = false ->
  after_blank_lines (line +:+ s) = None.
Proof.
  induction line as [|c line IH]; [discriminate|].
  rewrite app_cons. cbn [contains_char all_chars after_blank_lines].
  intros Hnl Hb. apply orb_false_elim in Hnl as [Hc Hnl].
  destruct (isspace c); [|reflexivity].
  rewrite (IH Hnl Hb). now rewrite Hc.
Qed.

Lemma before_close_line (line s : string) :
  contains_char nl line = false ->
  before_close (line +:+ s)
  = match before_close s with
    | Some t => Some (line +:+ t)
    | None => None
    end.
Proof.
  induction line as [|c line IH]; intros Hnl.
  - rewrite app_nil. now destruct (before_close s).
  - rewrite app_cons, before_close_eq.
    cbn [contains_char] in Hnl. apply orb_false_elim in Hnl as [Hc Hnl].
    cbn [startswith]. rewrite Ascii.eqb_sym, Hc. cbn [andb].
    rewrite (IH Hnl). now destruct (before_close s).
Qed.

(** The lines of a text up to the closing line, when no line after the
    first begins with three dashes. *)
Lemma before_close_unlines (more : list string) (rest : string) :
  Forall (fun line => contains_char nl line = false
                      /\ startswith line "---" = false) more ->
  forall first,
    contains_char nl first = false ->
    exists block,
      before_close (unlines (first :: more) +:+ ("---" +:+ rest)) = Some block
      /\ split nl block = first :: more.
Proof.
  induction 1 as [|line more [Hnl Hd] _ IH]; intros first Hfirst.
  - exists first. cbn [unlines].
    rewrite app_assoc_str, app_cons, app_nil.
    rewrite (before_close_line first _ Hfirst), before_close_eq, startswith_close.
    rewrite app_empty_r. split; [reflexivity | now apply split_no_sep].
  - destruct (IH line Hnl) as (block & Hblock & Hsplit).
    exists (first +:+ String nl block).
    change (unlines (first :: line :: more))
      with (first +:+ String nl (unlines (line :: more))).
    rewrite app_assoc_str, app_cons.
    rewrite (before_close_line first _ Hfirst), before_close_eq.
    assert (Hopen : startswith (String nl (unlines (line :: more) +:+ ("---" +:+ rest)))
                               (String nl "---") = false).
    { cbn [startswith unlines]. rewrite Ascii.eqb_refl. cbn [andb].
      rewrite app_assoc_str, app_cons.
      now rewrite (startswith_crossing nl line _ "---" eq_refl). }
    rewrite Hopen, Hblock. split; [reflexivity|].
    now rewrite split_app, (split_no_sep nl first Hfirst), Hsplit.
Qed.


(** C5 (as the code has it): the front matter of a text is read off its
    block: a key is bound to the value of the last line of the block that
    declares it (blank lines, comment lines and lines without a colon
    declare nothing), and to nothing when no line declares it.  The block
    is there when the text starts with three dashes followed by white
    space only up to a line break; it starts after the blank lines that
    follow and ends before the next line break that is followed by three
    dashes, whatever stands after these; a text without such a block, as
    every text that does not start with three dashes, has the empty
    mapping.  So for three dashes, white space, a line break, lines of
    which the first is not blank and no other begins with three dashes,
    and three dashes again, the front matter is what these lines
    declare. *)
Theorem _extract_front_matter_declared (content : string) :
  (forall key : string,
      _extract_front_matter content !! key
      = match front_matter_text content with
        | Some block => declared_value key (split nl block)
        | None => None
        end)
  /\ (front_matter_text content = None -> _extract_front_matter content = ∅)
  /\ (startswith content "---" = false -> _extract_front_matter content = ∅)
  /\ (forall (w first : string) (more : list string) (rest : string),
        content
        = "---" +:+ (w +:+ String nl (unlines (first :: more) +:+ ("---" +:+ rest))) ->
        all_chars isspace w = true ->
        contains_char nl first = false ->
        all_chars isspace first = false ->
        Forall (fun line => contains_char nl line = false
                            /\ startswith line "---" = false) more ->
        forall key : string,
          _extract_front_matter content !! key = declared_value key (first :: more)).
Proof.
  assert (Hnone : front_matter_text content = None -> _extract_front_matter content = ∅).
  { intros H. apply map_empty. intros key.
    now rewrite _extract_front_matter_text, H. }
  split; [apply _extract_front_matter_text|].
  split; [exact Hnone|].
  split.
  - intros H. apply Hnone. unfold front_matter_text. now rewrite H.
  - intros w first more rest -> Hw Hnl Hblank Hmore key.
    rewrite _extract_front_matter_text. unfold front_matter_text.
    rewrite startswith_app.
    change 3 with (String.length "---"). rewrite drop_app_length.
    rewrite (after_blank_lines_skip w _ Hw).
    change (unlines (first :: more)) with (first +:+ String nl (unlines more)).
    rewrite app_assoc_str, (after_blank_lines_line first _ Hnl Hblank).
    rewrite <- app_assoc_str.
    change (first +:+ String nl (unlines more)) with (unlines (first :: more)).
    destruct (before_close_unlines more rest Hmore first Hnl) as (block & -> & ->).
    reflexivity.
Qed.

End FrontMatterBlock.

(** The front matter of the scenario document and of texts without a
    block, and a block after a blank line whose first line is indented,
    through the theorem. *)
Lemma _extract_front_matter_declared_witness :
  _extract_front_matter Scenario.front_doc !! "title" = Some "Second: part"
  /\ _extract_front_matter Scenario.front_doc !! "tags" = Some "a, b"
  /\ _extract_front_matter Scenario.front_doc !! "body" = None
  /\ _extract_front_matter "--- no line break" = ∅
  /\ _extract_front_matter "no front matter" = ∅
  /\ _extract_front_matter
       ("---" +:+ (String " " (String nl EmptyString)
                   +:+ String nl (unlines ["  K: v"; "# c"; "k: w"]
                                  +:+ ("---" +:+ String nl "body: text"))))
     !! "k" = Some "w".
Proof.
  destruct (_extract_front_matter_declared Scenario.front_doc) as (Hdoc & _).
  destruct (_extract_front_matter_declared "--- no line break") as (_ & Hnone & _).
  destruct (_extract_front_matter_declared "no front matter") as (_ & _ & Habsent & _).
  destruct (_extract_front_matter_declared
              ("---" +:+ (String " " (String nl EmptyString)
                          +:+ String nl (unlines ["  K: v"; "# c"; "k: w"]
                                         +:+ ("---" +:+ String nl "body: text")))))
    as (_ & _ & _ & Hlines).
  rewrite !Hdoc.
  split; [reflexivity|]. split; [reflexivity|]. split; [reflexivity|].
  split; [now apply Hnone|]. split; [now apply Habsent|].
  rewrite (Hlines (String " " (String nl EmptyString)) "  K: v" ["# c"; "k: w"]
             (String nl "body: text") eq_refl);
    [reflexivity | reflexivity | reflexivity | reflexivity |].
  repeat constructor.
Defined.

(** C5 as stated fails: between the two lines of three dashes stand the
    lines [a: 1], [----] and [b: 2]; the line of four dashes has no colon,
    and it ends the block, so that [b] is not bound. *)
Lemma front_matter_closed_by_dashes :
  ~ (forall (lines : list string) (body key : string),
        Forall (fun line => contains_char nl line = false /\ line <> "---") lines ->
        _extract_front_matter
          ("---" +:+ String nl (unlines lines +:+ ("---" +:+ String nl body))) !! key
        = declared_value key lines).
Proof.
  intros H.
  specialize (H ["a: 1"; "----"; "b: 2"] "body" "b").
  assert (Hlines : Forall (fun line => contains_char nl line = false /\ line <> "---")
                          ["a: 1"; "----"; "b: 2"]).
  { repeat constructor; discriminate. }
  specialize (H Hlines). vm_compute in H. discriminate.
Qed.

(** ** [_validate_wp_url] *)

Section WpUrl.
Import PyStr.

Lemma rstrip_char_slashes (s : string) :
  exists n, s = rstrip_char "/" s +:+ slashes n.
Proof.
  induction s as [|a s [n IH]]; [now exists 0|].
  simpl. destruct (rstrip_char "/" s) as [|b r] eqn:E.
  - destruct (Ascii.eqb a "/") eqn:Ea.
    + apply Ascii.eqb_eq in Ea. subst a. exists (S n).
      rewrite app_nil in *. simpl. now rewrite <- IH.
    + exists n. rewrite app_cons. now rewrite <- IH.
  - exists n. rewrite app_cons. now rewrite <- IH.
Qed.

Lemma rstrip_char_no_slash (s : string) :
  endswith (rstrip_char "/" s) "/" = false.
Proof.
  induction s as [|a s IH]; [reflexivity|].
  simpl rstrip_char. destruct (rstrip_char "/" s) as [|b r] eqn:E.
  - destruct (Ascii.eqb a "/") eqn:Ea; [reflexivity|].
    cbn [endswith]. apply orb_false_intro; [|reflexivity].
    apply String.eqb_neq. intros [= ->]. now rewrite Ascii.eqb_refl in Ea.
  - cbn [endswith] in *. apply orb_false_intro; [|exact IH].
    apply String.eqb_neq. discriminate.
Qed.

(** X4: [_validate_wp_url] raises [ValueError] exactly on an address that
    starts with neither [http://] nor [https://]; otherwise it returns
    the address without its trailing slashes, all of them: what it returns
    does not end with a slash. *)
Theorem _validate_wp_url_trims (wp_url : string) :
  match _validate_wp_url wp_url with
  | Ok url =>
      (startswith wp_url "http://" = true \/ startswith wp_url "https://" = true)
      /\ endswith url "/" = false
      /\ exists n, wp_url = url +:+ slashes n
  | Raise e =>
      e = ValueError
      /\ startswith wp_url "http://" = false
      /\ startswith wp_url "https://" = false
  end.
Proof.
  unfold _validate_wp_url.
  destruct (startswith wp_url "http://") eqn:E1; simpl.
  - split; [now left|]. split; [apply rstrip_char_no_slash | apply rstrip_char_slashes].
  - destruct (startswith wp_url "https://") eqn:E2; simpl.
    + split; [now right|].
      split; [apply rstrip_char_no_slash | apply rstrip_char_slashes].
    + now repeat split.
Qed.

End WpUrl.

(** ** What the upload loop records *)

Section UploadRecords.
Import PyStr.
Variable Server : Type.
Variable read_bytes : string -> outcome string.
Variable guess_type : string -> option string.
Variable wp_uploadFile :
  Server -> string -> string -> string -> Server * outcome (option string * option Z).

Abbreviation upload_one := (_upload_single_asset Server read_bytes guess_type wp_uploadFile).
Abbreviation upload_loop := (upload_step Server read_bytes guess_type wp_uploadFile).
Abbreviation upload_all := (upload_assets Server read_bytes guess_type wp_uploadFile).

Lemma upload_assets_fold (server : Server) (assets : list Asset) (file_prefix : string) :
  upload_all server assets file_prefix
  = fold_left (upload_loop file_prefix) assets (server, ∅, ∅).
Proof. now destruct assets. Qed.

(** An invariant of the two maps that every step keeps holds of the
    result of the loop. *)
Lemma fold_upload_invariant (file_prefix : string)
      (P : list Asset -> gmap string string -> gmap string Z -> Prop) :
  (forall seen server link_map asset_id_map asset,
      P seen link_map asset_id_map ->
      P (seen ++ [asset])
        (upload_loop file_prefix (server, link_map, asset_id_map) asset).1.2
        (upload_loop file_prefix (server, link_map, asset_id_map) asset).2) ->
  forall assets seen st,
    P seen st.1.2 st.2 ->
    P (seen ++ assets)
      (fold_left (upload_loop file_prefix) assets st).1.2
      (fold_left (upload_loop file_prefix) assets st).2.
Proof.
  intros Hstep. induction assets as [|asset assets IH]; intros seen st HP; simpl.
  - now rewrite app_nil_r.
  - replace (seen ++ asset :: assets) with ((seen ++ [asset]) ++ assets)
      by now rewrite <- app_assoc.
    apply IH. destruct st as [[server link_map] asset_id_map]. now apply Hstep.
Qed.

Lemma upload_entries_inv (server : Server) (assets : list Asset)
      (file_prefix : string) :
  let '(_, link_map, asset_id_map) := upload_all server assets file_prefix in
  (forall key url, link_map !! key = Some url ->
                   nonempty url = true
                   /\ exists asset, In asset assets /\ original_path asset = key)
  /\ (forall key media_id, asset_id_map !! key = Some media_id ->
                           media_id <> 0%Z
                           /\ exists asset, In asset assets /\ original_path asset = key).
Proof.
  rewrite upload_assets_fold.
  pose (P := fun (seen : list Asset) (link_map : gmap string string)
                 (asset_id_map : gmap string Z) =>
               (forall key url, link_map !! key = Some url ->
                  nonempty url = true
                  /\ exists asset, In asset seen /\ original_path asset = key)
               /\ (forall key media_id, asset_id_map !! key = Some media_id ->
                     media_id <> 0%Z
                     /\ exists asset, In asset seen /\ original_path asset = key)).
  assert (H : P ([] ++ assets)
                (fold_left (upload_loop file_prefix) assets (server, ∅, ∅)).1.2
                (fold_left (upload_loop file_prefix) assets (server, ∅, ∅)).2).
  { apply fold_upload_invariant;
      [|split; intros ? ? H; simpl in H; now rewrite lookup_empty in H].
    clear. intros seen server link_map asset_id_map asset [Hl Hi].
    assert (Hkeep : P (seen ++ [asset]) link_map asset_id_map).
    { split; intros key v Hv; [apply Hl in Hv | apply Hi in Hv];
        destruct Hv as (Hv & a & Ha & Hk); (split; [exact Hv|]);
        exists a; (split; [apply in_or_app; now left | exact Hk]). }
    unfold upload_step.
    destruct (upload_one server asset file_prefix) as [server' [[url media_id]|e]];
      simpl; [|exact Hkeep].
    destruct (truthy_str url && truthy_int media_id) eqn:E; simpl; [|exact Hkeep].
    apply andb_prop in E as [Hu Hm].
    destruct url as [url|]; [|discriminate].
    destruct media_id as [media_id|]; [|discriminate]. simpl in *.
    destruct Hkeep as [Hl' Hi'].
    split; intros key v Hv;
      (destruct (decide (original_path asset = key)) as [<-|Hne];
       [rewrite lookup_insert_eq in Hv; injection Hv as <-
       |rewrite lookup_insert_ne in Hv by exact Hne; eauto]).
    - split; [exact Hu|]. exists asset. split; [apply in_or_app; right; now left | reflexivity].
    - split; [|exists asset; split; [apply in_or_app; right; now left | reflexivity]].
      intros ->. discriminate. }
  simpl in H.
  destruct (fold_left _ assets _) as [[server' link_map] asset_id_map].
  exact H.
Qed.

(** X5: every key of the maps [upload_assets] returns is the original
    path of one of the assets it was given, and every value is usable: no
    URL is empty and no media identifier is zero. *)
Theorem upload_assets_entries (server : Server) (assets : list Asset)
        (file_prefix : string) :
  let '(_, link_map, asset_id_map) := upload_all server assets file_prefix in
  (forall key url, link_map !! key = Some url ->
                   nonempty url = true
                   /\ exists asset, In asset assets /\ original_path asset = key)
  /\ (forall key media_id, asset_id_map !! key = Some media_id ->
                           media_id <> 0%Z
                           /\ exists asset, In asset assets /\ original_path asset = key).
Proof. apply upload_entries_inv. Qed.

Lemma upload_all_failed_inv (server : Server) (assets : list Asset)
      (file_prefix : string) :
  (forall server' asset,
      match (upload_one server' asset file_prefix).2 with
      | Ok (url, media_id) => truthy_str url && truthy_int media_id = false
      | Raise _ => True
      end) ->
  (upload_all server assets file_prefix).1.2 = ∅
  /\ (upload_all server assets file_prefix).2 = ∅.
Proof.
  intros Hfail. rewrite upload_assets_fold.
  pose (P := fun (_ : list Asset) (link_map : gmap string string)
                 (asset_id_map : gmap string Z) =>
               link_map = ∅ /\ asset_id_map = ∅).
  apply (fold_upload_invariant file_prefix P) with (seen := []); [|now split].
  intros seen server' link_map asset_id_map asset [-> ->].
  specialize (Hfail server' asset). unfold P, upload_step.
  destruct (upload_one server' asset file_prefix) as [server'' [[url media_id]|e]];
    simpl in *; [|now split].
  rewrite Hfail. now split.
Qed.

(** X6: when no upload returns both a URL and an identifier (each one
    raises, or returns an empty or missing value), both maps are empty. *)
Theorem upload_assets_all_failed (server : Server) (assets : list Asset)
        (file_prefix : string) :
  (forall server' asset,
      match (upload_one server' asset file_prefix).2 with
      | Ok (url, media_id) => truthy_str url && truthy_int media_id = false
      | Raise _ => True
      end) ->
  (upload_all server assets file_prefix).1.2 = ∅
  /\ (upload_all server assets file_prefix).2 = ∅.
Proof. apply upload_all_failed_inv. Qed.

(** X7: when every upload returns a URL and an identifier, the original
    path of every asset given is a key of both maps. *)
Theorem upload_assets_all_stored (server : Server) (assets : list Asset)
        (file_prefix : string) :
  (forall server' asset,
      match (upload_one server' asset file_prefix).2 with
      | Ok (url, media_id) => truthy_str url && truthy_int media_id = true
      | Raise _ => False
      end) ->
  forall asset, In asset assets ->
    is_Some ((upload_all server assets file_prefix).1.2 !! original_path asset)
    /\ is_Some ((upload_all server assets file_prefix).2 !! original_path asset).
Proof.
  intros Hok. rewrite upload_assets_fold.
  pose (P := fun (seen : list Asset) (link_map : gmap string string)
                 (asset_id_map : gmap string Z) =>
               forall asset, In asset seen ->
                 is_Some (link_map !! original_path asset)
                 /\ is_Some (asset_id_map !! original_path asset)).
  apply (fold_upload_invariant file_prefix P) with (seen := []); [|now intros ? []].
  intros seen server' link_map asset_id_map asset HP a Ha.
  specialize (Hok server' asset). unfold upload_step.
  destruct (upload_one server' asset file_prefix) as [server'' [[url media_id]|e]];
    simpl in *; [|contradiction].
  rewrite Hok. simpl.
  destruct (decide (original_path asset = original_path a)) as [->|Hne].
  - rewrite !lookup_insert_eq. split; eauto.
  - rewrite !lookup_insert_ne by exact Hne.
    apply in_app_or in Ha as [Ha|[->|[]]]; [now apply HP | contradiction].
Qed.

End UploadRecords.

(** ** The publication *)

(** X8: the upload list starts with the assets of the body, in their
    order, followed by at most the cover; a cover is always in the list,
    and is not added when the body already holds an equal asset. *)
Theorem assets_to_upload_cover (parsed_result : MD_ParsedResult) :
  (exists extra, assets_to_upload parsed_result = local_assets parsed_result ++ extra
                 /\ length extra <= 1)
  /\ (forall cover, cover_image parsed_result = Some cover ->
                    In cover (assets_to_upload parsed_result))
  /\ (forall cover, cover_image parsed_result = Some cover ->
                    In cover (local_assets parsed_result) ->
                    assets_to_upload parsed_result = local_assets parsed_result)
  /\ (cover_image parsed_result = None ->
      assets_to_upload parsed_result = local_assets parsed_result).
Proof.
  unfold assets_to_upload.
  destruct (cover_image parsed_result) as [cover|].
  - destruct (existsb (fun a => Asset_eq a cover) (local_assets parsed_result)) eqn:E;
      simpl; (split; [|split; [|split]]).
    + exists []. split; [now rewrite app_nil_r | simpl; lia].
    + intros c [= <-]. apply existsb_exists in E as (a & Ha & Heq).
      apply Asset_eq_true in Heq. now subst.
    + reflexivity.
    + discriminate.
    + exists [cover]. split; [reflexivity | simpl; lia].
    + intros c [= <-]. apply in_or_app. right. now left.
    + intros c [= <-] Hin.
      assert (existsb (fun a => Asset_eq a cover) (local_assets parsed_result) = true)
        as Habs; [|congruence].
      apply existsb_exists. exists cover. split; [exact Hin | now apply Asset_eq_true].
    + discriminate.
  - split; [|split; [|split]]; try discriminate; try reflexivity.
    exists []. split; [now rewrite app_nil_r | simpl; lia].
Qed.

Section PublishFacts.
Import PyStr.
Variable os : OS.
Variable splitext_root : string -> string.
Variable Server : Type.
Variable read_bytes : string -> outcome string.
Variable guess_type : string -> option string.
Variable wp_uploadFile :
  Server -> string -> string -> string -> Server * outcome (option string * option Z).
Variable wp_newPost : Server -> post_data -> Server * outcome Z.

Abbreviation publish :=
  (publish_from_parsed_result os splitext_root Server read_bytes guess_type
     wp_uploadFile wp_newPost).

(** The title of the post. *)
Abbreviation title_of parsed_result title :=
  (if truthy_str title then default EmptyString title
   else splitext_root (basename os (file_path parsed_result))).

(** X9: when no upload succeeds the article is still submitted, with the
    text of the document unchanged and without a thumbnail. *)
Theorem publish_when_uploads_fail (server : Server) (parsed_result : MD_ParsedResult)
        (title : option string) (categories tags : option (list string))
        (file_prefix status : string) :
  (forall server' asset,
      match (_upload_single_asset Server read_bytes guess_type wp_uploadFile
               server' asset file_prefix).2 with
      | Ok (url, media_id) => truthy_str url && truthy_int media_id = false
      | Raise _ => True
      end) ->
  exists server',
    publish server parsed_result title categories tags file_prefix status
    = wp_newPost server'
        {| post_title := title_of parsed_result title;
           post_content := content parsed_result;
           post_status := status;
           post_type := "post";
           terms_category := default [] categories;
           terms_post_tag := default [] tags;
           post_thumbnail := None |}.
Proof.
  intros Hfail. unfold publish_from_parsed_result.
  destruct (upload_all_failed_inv Server read_bytes guess_type wp_uploadFile server
              (assets_to_upload parsed_result) file_prefix Hfail) as [Hl Hi].
  destruct (upload_assets _ _ _ _ _ _ _) as [[server' link_map] asset_id_map].
  simpl in Hl, Hi. subst. exists server'.
  unfold publish_post, replace_markdown_links.
  destruct (decide _) as [_|Hne]; [|contradiction].
  destruct (cover_image parsed_result); now rewrite ?lookup_empty.
Qed.

(** X10: whatever the uploads do, the outcome of the publication is the
    outcome of one call of [wp.newPost], made on the site as the uploads
    left it; the post it sends has type [post] and the text of the
    document rewritten with the links the uploads recorded; its thumbnail
    is what the uploads recorded for the original path of the cover: none
    without a cover or without an entry, and otherwise the identifier of
    that entry, which is never zero and which stands for an asset of the
    upload list with that path. *)
Theorem publish_sends_one_post (server : Server) (parsed_result : MD_ParsedResult)
        (title : option string) (categories tags : option (list string))
        (file_prefix status : string) :
  let '(server', link_map, asset_id_map) :=
    upload_assets Server read_bytes guess_type wp_uploadFile server
                  (assets_to_upload parsed_result) file_prefix in
  exists data,
    publish server parsed_result title categories tags file_prefix status
    = wp_newPost server' data
    /\ post_type data = "post"
    /\ post_title data = title_of parsed_result title
    /\ post_status data = status
    /\ post_content data = replace_markdown_links (content parsed_result) link_map
    /\ (cover_image parsed_result = None -> post_thumbnail data = None)
    /\ (forall cover, cover_image parsed_result = Some cover ->
          post_thumbnail data = asset_id_map !! original_path cover)
    /\ (forall media_id, post_thumbnail data = Some media_id ->
          media_id <> 0%Z
          /\ exists cover asset,
               cover_image parsed_result = Some cover
               /\ asset_id_map !! original_path cover = Some media_id
               /\ In asset (assets_to_upload parsed_result)
               /\ original_path asset = original_path cover).
Proof.
  unfold publish_from_parsed_result.
  pose proof (upload_entries_inv Server read_bytes guess_type wp_uploadFile server
                (assets_to_upload parsed_result) file_prefix) as Hentries.
  destruct (upload_assets _ _ _ _ _ _ _) as [[server' link_map] asset_id_map].
  destruct Hentries as [_ Hids].
  assert (Htruthy : forall k, (if truthy_int (asset_id_map !! k)
                               then asset_id_map !! k else None) = asset_id_map !! k).
  { intros k. destruct (asset_id_map !! k) as [i|] eqn:Ei; [|reflexivity].
    destruct (Hids _ _ Ei) as (Hi & _). simpl.
    destruct (Z.eqb i 0) eqn:E; [|reflexivity]. now apply Z.eqb_eq in E. }
  unfold publish_post. eexists. split; [reflexivity|]. simpl.
  do 4 (split; [reflexivity|]).
  split; [now intros ->|]. split; [intros cover ->; apply Htruthy|].
  intros media_id.
  destruct (cover_image parsed_result) as [cover|]; [|discriminate].
  rewrite Htruthy. intros Ei.
  destruct (Hids _ _ Ei) as (Hi & asset & Hin & Hpath).
  split; [exact Hi|]. exists cover, asset. auto.
Qed.

End PublishFacts.

(** ** What the link extractor adds to a result *)

Section ExtractorAdds.
Import PyStr Re.
Variable os : OS.

(** An asset as [_process_local_asset] builds it under [base_dir]. *)
Abbreviation recorded base_dir asset :=
  (path_exists os (absolute_path asset) = true
   /\ absolute_path asset = abspath os (path_join os base_dir (original_path asset))
   /\ file_name asset = basename os (absolute_path asset)
   /\ nonempty (original_path asset) = true
   /\ strip (original_path asset) = original_path asset).

(** What a run of the extractor may change: it appends links and
    recorded assets, and leaves the other fields. *)
Abbreviation extends base_dir result result' :=
  (content result' = content result
   /\ file_path result' = file_path result
   /\ dir_path result' = dir_path result
   /\ cover_image result' = cover_image result
   /\ front_matter result' = front_matter result
   /\ (exists links, external_links result' = external_links result ++ links)
   /\ (exists assets, local_assets result' = local_assets result ++ assets
                      /\ Forall (fun asset => recorded base_dir asset) assets)).

Lemma extends_refl (base_dir : string) (result : MD_ParsedResult) :
  extends base_dir result result.
Proof.
  do 5 (split; [reflexivity|]). split.
  - exists []. now rewrite app_nil_r.
  - exists []. split; [now rewrite app_nil_r | constructor].
Qed.

Lemma extends_trans (base_dir : string) (r1 r2 r3 : MD_ParsedResult) :
  extends base_dir r1 r2 -> extends base_dir r2 r3 -> extends base_dir r1 r3.
Proof.
  intros (Hc & Hf & Hd & Hci & Hfm & [l1 Hl1] & (a1 & Ha1 & HP1))
         (Hc' & Hf' & Hd' & Hci' & Hfm' & [l2 Hl2] & (a2 & Ha2 & HP2)).
  do 5 (split; [congruence|]). split.
  - exists (l1 ++ l2). now rewrite Hl2, Hl1, app_assoc.
  - exists (a1 ++ a2). split; [now rewrite Ha2, Ha1, app_assoc|].
    apply Forall_app. now split.
Qed.

Lemma link_step_extends (base_dir : string) (m : string * string * string)
      (result result' : MD_ParsedResult) :
  link_step os base_dir m result = Ok result' -> extends base_dir result result'.
Proof.
  destruct m as [[link_mark target] title]. unfold link_step.
  destruct (nonempty (strip target)) eqn:Hne; simpl;
    [|intros [= <-]; apply extends_refl].
  destruct (urlparse_scheme os (strip target)) as [s|e]; simpl; [|discriminate].
  destruct (String.eqb s "http" || String.eqb s "https"); intros [= <-].
  - simpl. do 5 (split; [reflexivity|]). split; [eauto|].
    exists []. split; [now rewrite app_nil_r | constructor].
  - unfold _process_local_asset.
    destruct (path_exists os (abspath os (path_join os base_dir (strip target))))
      eqn:Hex; simpl; [|apply extends_refl].
    do 5 (split; [reflexivity|]). split; [exists []; now rewrite app_nil_r|].
    eexists. split; [reflexivity|].
    constructor; [|constructor]. simpl.
    split; [exact Hex|]. split; [reflexivity|]. split; [reflexivity|].
    split; [exact Hne | apply strip_idem].
Qed.

Lemma for_each_link_step_extends (base_dir : string)
      (ms : list (string * string * string)) :
  forall result result',
    for_each (link_step os base_dir) ms result = Ok result' ->
    extends base_dir result result'.
Proof.
  induction ms as [|m ms IH]; intros result result'; simpl.
  - intros [= <-]. apply extends_refl.
  - destruct (link_step os base_dir m result) as [r1|e] eqn:E; simpl; [|discriminate].
    intros H. apply (extends_trans base_dir result r1 result');
      [now apply (link_step_extends base_dir m) | now apply IH].
Qed.

(** X11: a run of [_extract_links] that returns has only appended to the
    two lists of the result: the text, the paths, the cover and the front
    matter are as before, and the links and assets already recorded are
    still there, in front. *)
Theorem _extract_links_only_appends (text base_dir : string)
        (result result' : MD_ParsedResult) :
  _extract_links os text base_dir result = Ok result' ->
  content result' = content result
  /\ file_path result' = file_path result
  /\ dir_path result' = dir_path result
  /\ cover_image result' = cover_image result
  /\ front_matter result' = front_matter result
  /\ (exists links, external_links result' = external_links result ++ links)
  /\ (exists assets, local_assets result' = local_assets result ++ assets).
Proof.
  intros H. apply for_each_link_step_extends in H.
  destruct H as (Hc & Hf & Hd & Hci & Hfm & Hl & (assets & Ha & _)).
  repeat split; try assumption. now exists assets.
Qed.

(** X12: every asset [_extract_links] records exists: its absolute path
    is the original path resolved against the directory of the
    document and passes [os.path.exists]; its file name is the base name
    of that path; its original path is not empty and has no white space
    around it. *)
Theorem _extract_links_assets_exist (content base_dir : string)
        (result result' : MD_ParsedResult) :
  _extract_links os content base_dir result = Ok result' ->
  exists assets,
    local_assets result' = local_assets result ++ assets
    /\ Forall (fun asset =>
                 path_exists os (absolute_path asset) = true
                 /\ absolute_path asset
                    = abspath os (path_join os base_dir (original_path asset))
                 /\ file_name asset = basename os (absolute_path asset)
                 /\ nonempty (original_path asset) = true
                 /\ strip (original_path asset) = original_path asset) assets.
Proof.
  intros H. apply for_each_link_step_extends in H.
  now destruct H as (_ & _ & _ & _ & _ & _ & Ha).
Qed.

(** The assets after the loop over [ms], when [urlparse] raises on none
    of the targets. *)
Lemma for_each_link_step_local (base_dir : string)
      (ms : list (string * string * string)) :
  (forall m, In m ms -> exists s, urlparse_scheme os (link_path m) = Ok s) ->
  forall result, exists result',
    for_each (link_step os base_dir) ms result = Ok result'
    /\ local_assets result'
       = local_assets result ++ omap (local_asset_of os base_dir) ms.
Proof.
  induction ms as [|[[link_mark target] title] ms IH]; intros Hparse result.
  - exists result. simpl. now rewrite app_nil_r.
  - assert (Hms : forall m, In m ms ->
                            exists s, urlparse_scheme os (link_path m) = Ok s).
    { intros m Hm. apply Hparse. now right. }
    specialize (IH Hms).
    destruct (Hparse (link_mark, target, title)) as [s Hs]; [now left|].
    unfold link_path in Hs. simpl in Hs.
    simpl for_each. cbn [omap list_omap].
    unfold local_asset_of at 1, link_path, is_external, link_step. simpl.
    destruct (nonempty (strip target)); simpl; [|apply IH].
    rewrite Hs. simpl.
    destruct (String.eqb s "http" || String.eqb s "https"); simpl.
    + destruct (IH {| content := content result;
                      file_path := file_path result;
                      dir_path := dir_path result;
                      external_links := external_links result ++ [strip target];
                      local_assets := local_assets result;
                      cover_image := cover_image result;
                      front_matter := front_matter result |})
        as (result' & Hrun & Hloc).
      exists result'. split; [exact Hrun | exact Hloc].
    + unfold _process_local_asset.
      destruct (path_exists os (abspath os (path_join os base_dir (strip target))));
        simpl; [|apply IH].
      match goal with
      | |- context [for_each _ ms ?r] => destruct (IH r) as (result' & Hrun & Hloc)
      end.
      exists result'. split; [exact Hrun|].
      rewrite Hloc. simpl. now rewrite <- app_assoc.
Qed.

(** X13: when [urlparse] raises on no target, [_extract_links] returns,
    and the assets it adds are, in the order of the link matches and with
    their repetitions, one for each match whose stripped target is not
    empty, is not an http or https address and resolves to an existing
    path; the asset is an image exactly when the match starts with an
    exclamation mark. *)
Theorem local_assets_in_order (content base_dir : string) (result : MD_ParsedResult) :
  (forall m, In m (link_matches content) ->
             exists s, urlparse_scheme os (link_path m) = Ok s) ->
  exists result',
    _extract_links os content base_dir result = Ok result'
    /\ local_assets result'
       = local_assets result
         ++ omap (local_asset_of os base_dir) (link_matches content).
Proof. intros H. now apply for_each_link_step_local. Qed.

(** X14: [_extract_cover_image] never touches the result.  When it
    returns a path, that path is what it stores in the parser: a
    non-empty stripped text that resolves to an existing file with an
    image extension; when it returns nothing the parser is as before. *)
Theorem _extract_cover_image_checks (self : MarkdownParser)
        (content base_dir : string) (result : MD_ParsedResult) :
  let '(self', result', returned) :=
    _extract_cover_image os self content base_dir result in
  result' = result
  /\ match returned with
     | Some path =>
         cover_path self' = Some path
         /\ nonempty path = true
         /\ strip path = path
         /\ path_exists os (abspath os (path_join os base_dir path)) = true
         /\ _is_image_file (abspath os (path_join os base_dir path)) = true
     | None => self' = self
     end.
Proof.
  unfold _extract_cover_image.
  destruct (search _cover_pattern content) as [m|]; [|now split].
  destruct (nonempty (strip (group m 1))) eqn:Hne; simpl; [|now split].
  destruct (path_exists os _) eqn:Hex; simpl; [|now split].
  destruct (_is_image_file _) eqn:Himg; simpl; [|now split].
  repeat split; try assumption. apply strip_idem.
Qed.

End ExtractorAdds.

(** ** Texts without an opening bracket *)

Section NoBracket.
Import PyStr Re.

Lemma eqb_bracket (c : ascii) :
  Ascii.eqb c "[" = false -> cmatch (CLit "[") c = false.
Proof. intros H. unfold cmatch. now rewrite Ascii.eqb_sym. Qed.

Lemma text_link_needs_bracket (s : string) (pos : nat) :
  contains_char "[" s = false -> match_at text_link_pattern s pos = None.
Proof.
  intros H. unfold match_at, text_link_pattern. cbn [rmatch RLit].
  destruct s as [|c s]; [reflexivity|].
  cbn [contains_char] in H. apply orb_false_elim in H as [Hc _].
  now rewrite (eqb_bracket c Hc).
Qed.

Lemma image_needs_bracket (s : string) (pos : nat) :
  contains_char "[" s = false -> match_at image_pattern s pos = None.
Proof.
  intros H. unfold match_at, image_pattern. cbn [rmatch RLit].
  destruct s as [|c1 s]; [reflexivity|].
  destruct (cmatch (CLit "!") c1); [|reflexivity].
  destruct s as [|c2 s]; [reflexivity|].
  cbn [contains_char] in H.
  apply orb_false_elim in H as [_ H]. apply orb_false_elim in H as [Hc _].
  now rewrite (eqb_bracket c2 Hc).
Qed.

Lemma link_needs_bracket (s : string) (pos : nat) :
  contains_char "[" s = false -> match_at link_pattern s pos = None.
Proof.
  intros H. unfold match_at, link_pattern. cbn [rmatch RLit].
  destruct s as [|c1 s]; [reflexivity|].
  cbn [contains_char] in H. apply orb_false_elim in H as [Hc1 H].
  rewrite (eqb_bracket c1 Hc1).
  destruct (cmatch (CLit "!") c1); [|reflexivity].
  destruct s as [|c2 s]; [reflexivity|].
  cbn [contains_char] in H. apply orb_false_elim in H as [Hc2 _].
  now rewrite (eqb_bracket c2 Hc2).
Qed.

(** A pattern that needs a bracket finds nothing in a text without one. *)
Lemma scan_without_bracket (r : regex) :
  (forall s pos, contains_char "[" s = false -> match_at r s pos = None) ->
  forall s pos skip,
    contains_char "[" s = false -> matches_of (scan r pos skip s) = [].
Proof.
  intros Hr. induction s as [|c s IH]; intros pos skip H.
  - destruct skip; simpl; [now rewrite (Hr _ _ H) | reflexivity].
  - assert (Hs : contains_char "[" s = false).
    { cbn [contains_char] in H. now apply orb_false_elim in H as [_ H]. }
    destruct skip as [|n]; cbn [scan]; [|now apply IH].
    rewrite (Hr _ _ H). cbn [matches_of]. now apply IH.
Qed.

Lemma sub_without_bracket (r : regex) (f : Match -> string) (s : string) :
  (forall s pos, contains_char "[" s = false -> match_at r s pos = None) ->
  contains_char "[" s = false -> sub r f s = s.
Proof.
  intros Hr H. apply sub_unchanged. unfold finditer.
  now rewrite (scan_without_bracket r Hr).
Qed.

(** X15: a text without an opening bracket holds no link as far as the
    program is concerned: [re.findall] finds no link match in it,
    [_extract_links] returns the result it was given whatever the files
    and [urlparse] do, and [replace_markdown_links] returns the text
    unchanged whatever the mapping. *)
Theorem no_bracket_no_link (text : string) :
  contains_char "[" text = false ->
  link_matches text = []
  /\ (forall os base_dir result, _extract_links os text base_dir result = Ok result)
  /\ (forall link_map, replace_markdown_links text link_map = text).
Proof.
  intros H.
  assert (Hm : link_matches text = []).
  { unfold link_matches, finditer.
    now rewrite (scan_without_bracket link_pattern link_needs_bracket). }
  split; [exact Hm|]. split.
  - intros os base_dir result. unfold _extract_links. now rewrite Hm.
  - intros link_map. unfold replace_markdown_links.
    destruct (decide _); [reflexivity|].
    rewrite (sub_without_bracket image_pattern _ text image_needs_bracket H).
    now apply sub_without_bracket; [apply text_link_needs_bracket|].
Qed.

End NoBracket.

(** ** Keys and values of the front matter *)

Section FrontMatterEntries.
Import PyStr Re.

Lemma lower_char_idem (c : ascii) : lower_char (lower_char c) = lower_char c.
Proof. destruct c as [[] [] [] [] [] [] [] []]; reflexivity. Qed.

Lemma isspace_lower_char (c : ascii) : isspace (lower_char c) = isspace c.
Proof. destruct c as [[] [] [] [] [] [] [] []]; reflexivity. Qed.

Lemma lower_char_colon (c : ascii) :
  Ascii.eqb (lower_char c) ":" = Ascii.eqb c ":".
Proof. destruct c as [[] [] [] [] [] [] [] []]; reflexivity. Qed.

Lemma lower_idem (s : string) : lower (lower s) = lower s.
Proof.
  induction s as [|c s IH]; simpl; [reflexivity|].
  now rewrite lower_char_idem, IH.
Qed.

Lemma lstrip_lower (s : string) : lstrip (lower s) = lower (lstrip s).
Proof.
  induction s as [|c s IH]; simpl; [reflexivity|].
  rewrite isspace_lower_char. now destruct (isspace c).
Qed.

Lemma rstrip_lower (s : string) : rstrip (lower s) = lower (rstrip s).
Proof.
  induction s as [|c s IH]; simpl; [reflexivity|].
  rewrite IH, isspace_lower_char.
  destruct (rstrip s); simpl; [now destruct (isspace c) | reflexivity].
Qed.

Lemma strip_lower (s : string) : strip (lower s) = lower (strip s).
Proof. unfold strip. now rewrite lstrip_lower, rstrip_lower. Qed.

Lemma lower_no_colon (s : string) :
  contains_char ":" (lower s) = contains_char ":" s.
Proof.
  induction s as [|c s IH]; simpl; [reflexivity|].
  now rewrite lower_char_colon, IH.
Qed.

Lemma split_once_key (sep : ascii) (s k v : string) :
  split_once sep s = Some (k, v) -> contains_char sep k = false.
Proof.
  revert k v. induction s as [|c s IH]; simpl; intros k v; [discriminate|].
  destruct (Ascii.eqb c sep) eqn:Ec; [now intros [= <- _]|].
  destruct (split_once sep s) as [[k' v']|]; [|discriminate].
  intros [= <- _]. simpl. rewrite Ec. now apply (IH k' v').
Qed.

Lemma declared_entry_clean (line key value : string) :
  declared_entry line = Some (key, value) ->
  lower key = key /\ strip key = key
  /\ contains_char ":" key = false /\ strip value = value.
Proof.
  unfold declared_entry.
  destruct (all_chars isspace line); [discriminate|].
  destruct (startswith (lstrip line) "#"); [discriminate|].
  destruct (split_once ":" line) as [[k v]|] eqn:E; [|discriminate].
  intros [= <- <-]. split; [apply lower_idem|].
  split; [now rewrite strip_lower, strip_idem|].
  split; [|apply strip_idem].
  rewrite lower_no_colon. apply strip_no_char. now apply (split_once_key ":" line k v).
Qed.

Lemma declared_value_entry (key value : string) (lines : list string) :
  declared_value key lines = Some value ->
  exists line, In line lines /\ declared_entry line = Some (key, value).
Proof.
  induction lines as [|line lines IH]; simpl; [discriminate|].
  destruct (declared_value key lines) as [v|].
  - intros [= ->]. destruct (IH eq_refl) as (l & Hl & He). eauto.
  - destruct (declared_entry line) as [[k v]|] eqn:E; [|discriminate].
    destruct (String.eqb k key) eqn:Ek; [|discriminate].
    apply String.eqb_eq in Ek. subst k. intros [= ->]. eauto.
Qed.

(** X16: every key of the front matter is lower-case, has no white space
    around it and holds no colon; every value has no white space around
    it. *)
Theorem front_matter_entries_clean (content key value : string) :
  _extract_front_matter content !! key = Some value ->
  lower key = key /\ strip key = key
  /\ contains_char ":" key = false /\ strip value = value.
Proof.
  rewrite _extract_front_matter_lookup.
  destruct (front_matter_block content) as [block|]; [|discriminate].
  intros H. apply declared_value_entry in H as (line & _ & H).
  now apply (declared_entry_clean line).
Qed.

End FrontMatterEntries.

(** ** Image extensions *)

Section ImageFiles.
Import PyStr.

Lemma lower_app (a b : string) : lower (a +:+ b) = lower a +:+ lower b.
Proof.
  induction a as [|c a IH]; [reflexivity|].
  rewrite app_cons. simpl. now rewrite IH.
Qed.

Lemma lower_split (s a b : string) :
  lower s = a +:+ b -> exists a0 b0, s = a0 +:+ b0 /\ lower a0 = a /\ lower b0 = b.
Proof.
  revert s. induction a as [|c a IH]; intros s H.
  - exists EmptyString, s. now rewrite app_nil in *.
  - rewrite app_cons in H. destruct s as [|x s]; [discriminate|].
    simpl in H. injection H as Hc H.
    destruct (IH s H) as (a0 & b0 & -> & Ha & Hb).
    exists (String x a0), b0. rewrite app_cons. simpl. now rewrite Hc, Ha.
Qed.

Lemma endswith_app (a b : string) : endswith (a +:+ b) b = true.
Proof.
  induction a as [|c a IH].
  - rewrite app_nil. destruct b; cbn [endswith]; now rewrite String.eqb_refl.
  - rewrite app_cons. cbn [endswith]. rewrite IH. apply orb_true_r.
Qed.

Lemma endswith_split (s p : string) :
  endswith s p = true -> exists stem, s = stem +:+ p.
Proof.
  induction s as [|c s IH]; cbn [endswith]; intros H.
  - apply orb_prop in H as [H|H]; [|discriminate].
    apply String.eqb_eq in H. subst. now exists EmptyString.
  - apply orb_prop in H as [H|H].
    + apply String.eqb_eq in H. subst. now exists EmptyString.
    + destruct (IH H) as [stem ->]. now exists (String c stem).
Qed.

(** X17: [_is_image_file] accepts exactly the paths that end, in any
    mix of upper and lower case, with one of the six extensions. *)
Theorem _is_image_file_extensions (file_path : string) :
  _is_image_file file_path = true
  <-> exists stem ext,
        file_path = stem +:+ ext
        /\ In (lower ext) [".jpg"; ".jpeg"; ".png"; ".gif"; ".webp"; ".svg"].
Proof.
  unfold _is_image_file. rewrite existsb_exists. split.
  - intros (e & He & Hend).
    apply endswith_split in Hend as [stem Hstem].
    apply lower_split in Hstem as (a0 & b0 & -> & _ & Hb).
    exists a0, b0. split; [reflexivity | now rewrite Hb].
  - intros (stem & ext & -> & Hin).
    exists (lower ext). split; [exact Hin|].
    rewrite lower_app. apply endswith_app.
Qed.

End ImageFiles.

(** ** Rewriting a link whose target is mapped *)

Section ReplaceFacts.
Import PyStr.

Lemma startswith_first (c : ascii) (s t : string) :
  contains_char c t = false -> nonempty t = true ->
  startswith (String c s) t = false.
Proof.
  destruct t as [|x t]; [discriminate|]. cbn [contains_char startswith].
  intros H _. apply orb_false_elim in H as [H _]. now rewrite H.
Qed.

Lemma occurs_startswith (t s : string) :
  occurs t s = false -> startswith s t = false.
Proof. destruct s; cbn [occurs]; intros H; now apply orb_false_elim in H as [H _]. Qed.

Lemma occurs_tail (t : string) (c : ascii) (s : string) :
  occurs t (String c s) = false -> occurs t s = false.
Proof. cbn [occurs]. intros H. now apply orb_false_elim in H as [_ H]. Qed.

Lemma replace_here (c : ascii) (t new post : string) :
  replace_from (String c t) new 0 (String c t +:+ post)
  = new +:+ replace_from (String c t) new 0 post.
Proof.
  rewrite app_cons. cbn [replace_from].
  change (String c (t +:+ post)) with (String c t +:+ post).
  rewrite startswith_app. f_equal.
  rewrite replace_from_skip.
  replace (String.length (String c t) - 1) with (String.length t)
    by (cbn [String.length]; lia).
  now rewrite drop_app_length.
Qed.

(** The first occurrence of [t] after a text that does not hold it and a
    character that is not in [t]. *)
Lemma replace_after (sep : ascii) (t new : string) :
  nonempty t = true -> contains_char sep t = false ->
  forall a post,
    occurs t a = false ->
    replace_from t new 0 (a +:+ String sep (t +:+ post))
    = a +:+ String sep (new +:+ replace_from t new 0 post).
Proof.
  intros Hne Hsep. induction a as [|y a IH]; intros post Ha.
  - rewrite !app_nil. cbn [replace_from].
    rewrite (startswith_first sep _ t Hsep Hne). f_equal.
    destruct t as [|c t]; [discriminate|]. apply replace_here.
  - rewrite !app_cons. cbn [replace_from].
    change (String y (a +:+ String sep (t +:+ post)))
      with (String y a +:+ String sep (t +:+ post)).
    rewrite (startswith_crossing sep _ _ t Hsep), (occurs_startswith _ _ Ha).
    f_equal. apply IH. now apply (occurs_tail t y).
Qed.

Lemma occurs_sep (c : ascii) (t : string) :
  nonempty t = true -> contains_char c t = false ->
  forall a b, occurs t (a +:+ String c b) = occurs t a || occurs t b.
Proof.
  intros Hne Hc. induction a as [|y a IH]; intros b.
  - rewrite app_nil. cbn [occurs]. rewrite (startswith_first c b t Hc Hne).
    now destruct t.
  - rewrite app_cons. cbn [occurs].
    change (String y (a +:+ String c b)) with (String y a +:+ String c b).
    rewrite (startswith_crossing c _ _ t Hc), IH. now rewrite orb_assoc.
Qed.

Lemma contains_char_app (c : ascii) (a b : string) :
  contains_char c (a +:+ b) = contains_char c a || contains_char c b.
Proof.
  induction a as [|x a IH]; [reflexivity|].
  rewrite app_cons. simpl. now rewrite IH, orb_assoc.
Qed.

Lemma occurs_empty (t : string) : nonempty t = true -> occurs t EmptyString = false.
Proof. now destruct t. Qed.

End ReplaceFacts.
Section LinkReplace.
Import PyStr.

Lemma replace_single (c : ascii) (t new : string) :
  nonempty t = true -> contains_char c t = false ->
  replace_from t new 0 (String c EmptyString) = String c EmptyString.
Proof.
  intros Hne Hc. cbn [replace_from]. now rewrite (startswith_first c _ t Hc Hne).
Qed.

Lemma replace_nonempty (s old new : string) :
  nonempty old = true -> replace s old new = replace_from old new 0 s.
Proof. now destruct old. Qed.

Lemma text_link_sep (label target : string) :
  text_link label target
  = String "[" (label +:+ "]") +:+ String "(" (target +:+ ")").
Proof. unfold text_link. rewrite app_cons. f_equal. now rewrite app_assoc_str. Qed.

Lemma occurs_bracketed (c : ascii) (t label : string) :
  nonempty t = true -> contains_char c t = false -> contains_char "]" t = false ->
  occurs t label = false ->
  occurs t (String c (label +:+ "]")) = false.
Proof.
  intros Hne Hc Hclose Hlabel.
  change (String c (label +:+ "]")) with (EmptyString +:+ String c (label +:+ "]")).
  rewrite (occurs_sep c t Hne Hc), (occurs_sep "]" t Hne Hclose), Hlabel.
  now rewrite (occurs_empty t Hne).
Qed.

(** Replacing the target of a link construct whose label does not hold
    it changes the target and nothing else. *)
Lemma replace_text_link (label t new : string) :
  nonempty t = true ->
  contains_char "[" t = false -> contains_char "]" t = false ->
  contains_char "(" t = false -> contains_char ")" t = false ->
  occurs t label = false ->
  replace (text_link label t) t new = text_link label new.
Proof.
  intros Hne Ho Hc Hpo Hpc Hlabel.
  rewrite (replace_nonempty _ t new Hne).
  rewrite !text_link_sep, (replace_after "(" t new Hne Hpo).
  - now rewrite (replace_single ")" t new Hne Hpc).
  - now apply occurs_bracketed.
Qed.

Lemma replace_image_link (label t new : string) :
  nonempty t = true -> contains_char "!" t = false ->
  contains_char "[" t = false -> contains_char "]" t = false ->
  contains_char "(" t = false -> contains_char ")" t = false ->
  occurs t label = false ->
  replace (image_link label t) t new = image_link label new.
Proof.
  intros Hne Hb Ho Hc Hpo Hpc Hlabel.
  rewrite (replace_nonempty _ t new Hne).
  unfold image_link. rewrite !text_link_sep.
  change (String "!" (?a +:+ ?b)) with (String "!" a +:+ b).
  rewrite (replace_after "(" t new Hne Hpo).
  - now rewrite (replace_single ")" t new Hne Hpc).
  - change (String "!" (String "[" (label +:+ "]")))
      with (EmptyString +:+ String "!" (String "[" (label +:+ "]"))).
    rewrite (occurs_sep "!" t Hne Hb), (occurs_empty t Hne).
    now apply occurs_bracketed.
Qed.

End LinkReplace.
Section LinkMatch.
Import PyStr Re.

Lemma star_lazy_here {A : Type} (k : cclass) (cont : string -> nat -> option A)
      (s : string) (pos : nat) (x : A) :
  cont s pos = Some x -> star_lazy k cont s pos = Some x.
Proof. intros H. destruct s; simpl; now rewrite H. Qed.

Lemma star_lazy_skip {A : Type} (k : cclass) (cont : string -> nat -> option A) :
  forall u s pos,
    all_chars (cmatch k) u = true ->
    (forall i, i < String.length u -> cont (drop i (u +:+ s)) (pos + i) = None) ->
    star_lazy k cont (u +:+ s) pos = star_lazy k cont s (pos + String.length u).
Proof.
  induction u as [|c u IH]; intros s pos Hall Hnone.
  - rewrite app_nil. simpl. now rewrite Nat.add_0_r.
  - cbn [all_chars] in Hall. apply andb_prop in Hall as [Hc Hall].
    rewrite app_cons. cbn [star_lazy].
    pose proof (Hnone 0 ltac:(simpl; lia)) as H0. simpl in H0.
    rewrite Nat.add_0_r, app_cons in H0. rewrite H0, Hc.
    rewrite IH; [simpl; now rewrite Nat.add_succ_r | exact Hall |].
    intros i Hi. specialize (Hnone (S i) ltac:(simpl; lia)).
    rewrite app_cons in Hnone. simpl in Hnone.
    now rewrite Nat.add_succ_r in Hnone.
Qed.

Lemma drop_inside (u s : string) (i : nat) :
  i < String.length u ->
  exists c w, drop i (u +:+ s) = String c w /\ contains_char c u = true.
Proof.
  revert i. induction u as [|a u IH]; intros i Hi; [simpl in Hi; lia|].
  rewrite app_cons. destruct i as [|i].
  - exists a, (u +:+ s). split; [reflexivity|]. simpl. now rewrite Ascii.eqb_refl.
  - simpl in Hi. destruct (IH i ltac:(lia)) as (c & w & Hd & Hc).
    exists c, w. split; [exact Hd|]. simpl. rewrite Hc. apply orb_true_r.
Qed.

Lemma char_differs (c x : ascii) (u : string) :
  contains_char c u = true -> contains_char x u = false -> Ascii.eqb x c = false.
Proof.
  induction u as [|a u IH]; simpl; [discriminate|].
  intros Hc Hx. apply orb_false_elim in Hx as [Hax Hx].
  destruct (Ascii.eqb a c) eqn:E; [|now apply IH].
  apply Ascii.eqb_eq in E. subst. now rewrite Ascii.eqb_sym.
Qed.

Lemma all_chars_dot (s : string) :
  contains_char nl s = false -> all_chars (cmatch CDot) s = true.
Proof.
  induction s as [|c s IH]; simpl; [reflexivity|].
  intros H. apply orb_false_elim in H as [Hc H]. now rewrite Hc, IH.
Qed.

Lemma length_text_link (label t : string) :
  String.length (text_link label t) = String.length label + String.length t + 4.
Proof.
  unfold text_link. cbn [String.length].
  rewrite length_app_str. cbn [String.length]. rewrite length_app_str. simpl. lia.
Qed.

(** The plain-link pattern at the head of a link construct whose label
    holds no closing bracket and whose target holds no closing
    parenthesis (and neither a line break) matches that construct, with
    the target as group 1. *)
Lemma text_link_match (label t post : string) (pos : nat) :
  contains_char "]" label = false -> contains_char nl label = false ->
  contains_char ")" t = false -> contains_char nl t = false ->
  exists m,
    match_at text_link_pattern (text_link label t +:+ post) pos = Some m
    /\ m_len m = String.length (text_link label t)
    /\ m_group0 m = text_link label t
    /\ group m 1 = t.
Proof.
  intros Hl Hlnl Ht Htnl.
  assert (Hs : text_link label t +:+ post
               = String "[" (label +:+ String "]" (String "(" (t +:+ String ")" post)))).
  { unfold text_link. rewrite app_cons. f_equal.
    rewrite app_assoc_str, !app_cons. do 2 f_equal.
    now rewrite app_assoc_str, app_cons, app_nil. }
  unfold match_at, text_link_pattern. rewrite Hs.
  set (final := fun (_ : string) (e : nat) (cs : caps) => Some _).
  cbn [rmatch RLit]. rewrite cmatch_lit_refl.
  eexists. split.
  { rewrite star_lazy_skip; [|now apply all_chars_dot|].
    2:{ intros i Hi.
        destruct (drop_inside label (String "]" (String "(" (t +:+ String ")" post)))
                   i Hi) as (c & w & -> & Hc).
        unfold cmatch. now rewrite (char_differs c "]" label Hc Hl). }
    apply star_lazy_here. rewrite !cmatch_lit_refl.
    rewrite star_lazy_skip; [|now apply all_chars_dot|].
    2:{ intros i Hi.
        destruct (drop_inside t (String ")" post) i Hi) as (c & w & -> & Hc).
        unfold cmatch. now rewrite (char_differs c ")" t Hc Ht). }
    apply star_lazy_here. rewrite cmatch_lit_refl. reflexivity. }
  cbn [m_len m_group0]. unfold group. cbn [map m_groups group_lookup Nat.eqb].
  pose proof (length_text_link label t) as Hlen.
  split; [lia|]. split.
  - rewrite <- Hs.
    replace (S (S (S (S pos + String.length label)) + String.length t) - pos)
      with (String.length (text_link label t)) by lia.
    apply take_app_length.
  - replace (S (S (S pos + String.length label)) + String.length t
             - S (S (S pos + String.length label)))
      with (String.length t) by lia.
    replace (S (S (S pos + String.length label)) - pos)
      with (String.length (String "[" (label +:+ "]("))).
    2:{ cbn [String.length]. rewrite length_app_str. simpl. lia. }
    replace (String "[" (label +:+ String "]" (String "(" (t +:+ String ")" post))))
      with (String "[" (label +:+ "](") +:+ (t +:+ String ")" post)).
    2:{ rewrite app_cons. f_equal. now rewrite app_assoc_str. }
    rewrite drop_app_length. apply take_app_length.
Qed.

Lemma text_link_first (c : ascii) (w : string) (pos : nat) :
  Ascii.eqb c "[" = false -> match_at text_link_pattern (String c w) pos = None.
Proof.
  intros H. unfold match_at, text_link_pattern. cbn [rmatch RLit].
  now rewrite (eqb_bracket c H).
Qed.

Lemma image_second (c1 c2 : ascii) (w : string) (pos : nat) :
  Ascii.eqb c2 "[" = false ->
  match_at image_pattern (String c1 (String c2 w)) pos = None.
Proof.
  intros H. unfold match_at, image_pattern. cbn [rmatch RLit].
  rewrite (eqb_bracket c2 H). now destruct (cmatch (CLit "!") c1).
Qed.

Lemma image_first (c : ascii) (w : string) (pos : nat) :
  Ascii.eqb c "!" = false -> match_at image_pattern (String c w) pos = None.
Proof.
  intros H. unfold match_at, image_pattern. cbn [rmatch RLit].
  unfold cmatch. now rewrite Ascii.eqb_sym, H.
Qed.

Lemma image_short (c : ascii) (pos : nat) :
  match_at image_pattern (String c EmptyString) pos = None.
Proof.
  unfold match_at, image_pattern. cbn [rmatch RLit].
  now destruct (cmatch (CLit "!") c).
Qed.

End LinkMatch.
Section ImageMatch.
Import PyStr Re.

Lemma star_greedy_none {A : Type} (cont : string -> nat -> option A) :
  (forall s1 p1, startswith s1 (String dquote EmptyString) = false -> cont s1 p1 = None) ->
  forall s pos,
    startswith (lstrip s) (String dquote EmptyString) = false ->
    star_greedy CSpace cont s pos = None.
Proof.
  intros Hcont. induction s as [|c s IH]; intros pos H.
  - simpl. now apply Hcont.
  - cbn [star_greedy]. change (cmatch CSpace c) with (isspace c).
    cbn [lstrip] in H. destruct (isspace c) eqn:Ec.
    + rewrite (IH _ H). apply Hcont.
      rewrite startswith_char. apply Ascii.eqb_neq. intros <-. discriminate.
    + now apply Hcont.
Qed.

(** Where the text does not go on with white space and a double quote,
    the optional title matches nothing and is passed over. *)
Lemma title_skipped {A : Type} (n : nat) (s : string) (pos : nat) (cs : caps)
      (k : string -> nat -> caps -> option A) :
  startswith (lstrip s) (String dquote EmptyString) = false ->
  rmatch (title_group n) s pos cs k = k s pos cs.
Proof.
  intros H. unfold title_group, RPlus. cbn [rmatch].
  destruct s as [|c s]; [reflexivity|].
  change (cmatch CSpace c) with (isspace c).
  cbn [lstrip] in H. destruct (isspace c) eqn:Ec; [|reflexivity].
  rewrite star_greedy_none; [reflexivity| |exact H].
  intros s1 p1 Hs1. destruct s1 as [|c1 s1]; [reflexivity|].
  rewrite startswith_char in Hs1. unfold cmatch. now rewrite Hs1.
Qed.

Lemma lstrip_not_quote (a : string) (c : ascii) (rest : string) :
  contains_char dquote a = false -> isspace c = false -> Ascii.eqb dquote c = false ->
  startswith (lstrip (a +:+ String c rest)) (String dquote EmptyString) = false.
Proof.
  intros Ha Hc Hq. induction a as [|x a IH].
  - rewrite app_nil. cbn [lstrip]. rewrite Hc. now rewrite startswith_char.
  - cbn [contains_char] in Ha. apply orb_false_elim in Ha as [Hx Ha].
    rewrite app_cons. cbn [lstrip]. destruct (isspace x); [now apply IH|].
    rewrite startswith_char. now rewrite Ascii.eqb_sym.
Qed.

Lemma drop_app_inside (u s : string) (i : nat) :
  i < String.length u -> drop i (u +:+ s) = drop i u +:+ s.
Proof.
  revert i. induction u as [|a u IH]; intros i Hi; [simpl in Hi; lia|].
  destruct i as [|i]; [reflexivity|].
  rewrite app_cons. simpl. apply IH. simpl in Hi. lia.
Qed.

Lemma contains_char_drop (x : ascii) (u : string) (i : nat) :
  contains_char x u = false -> contains_char x (drop i u) = false.
Proof.
  revert i. induction u as [|a u IH]; intros [|i] H; try exact H.
  simpl. apply IH. cbn [contains_char] in H. now apply orb_false_elim in H as [_ H].
Qed.

Lemma drop_nonempty (u : string) (i : nat) :
  i < String.length u -> exists c w, drop i u = String c w.
Proof.
  revert i. induction u as [|a u IH]; intros i Hi; [simpl in Hi; lia|].
  destruct i as [|i]; [eauto|]. simpl. apply IH. simpl in Hi. lia.
Qed.

Lemma length_image_link (label t : string) :
  String.length (image_link label t) = String.length label + String.length t + 5.
Proof. unfold image_link. cbn [String.length]. rewrite length_text_link. lia. Qed.

(** The image pattern at the head of an image construct without title:
    it matches the construct, with the target as group 1. *)
Lemma image_link_match (label t post : string) (pos : nat) :
  contains_char "]" label = false -> contains_char nl label = false ->
  contains_char ")" t = false -> contains_char nl t = false ->
  contains_char dquote t = false ->
  exists m,
    match_at image_pattern (image_link label t +:+ post) pos = Some m
    /\ m_len m = String.length (image_link label t)
    /\ m_group0 m = image_link label t
    /\ group m 1 = t.
Proof.
  intros Hl Hlnl Ht Htnl Htq.
  assert (Hs : image_link label t +:+ post
               = String "!" (String "[" (label +:+ String "]"
                   (String "(" (t +:+ String ")" post))))).
  { unfold image_link, text_link. rewrite !app_cons. do 2 f_equal.
    rewrite app_assoc_str, !app_cons. do 2 f_equal.
    now rewrite app_assoc_str, app_cons, app_nil. }
  unfold match_at, image_pattern. rewrite Hs.
  set (final := fun (_ : string) (e : nat) (cs : caps) => Some _).
  cbn [rmatch RLit]. rewrite !cmatch_lit_refl.
  eexists. split.
  { rewrite star_lazy_skip; [|now apply all_chars_dot|].
    2:{ intros i Hi.
        destruct (drop_inside label (String "]" (String "(" (t +:+ String ")" post)))
                   i Hi) as (c & w & -> & Hc).
        unfold cmatch. now rewrite (char_differs c "]" label Hc Hl). }
    apply star_lazy_here. rewrite !cmatch_lit_refl.
    rewrite star_lazy_skip; [|now apply all_chars_dot|].
    2:{ intros i Hi. rewrite (drop_app_inside t _ i Hi).
        rewrite title_skipped.
        - destruct (drop_nonempty t i Hi) as (c & w & Hd).
          pose proof (contains_char_drop ")" t i Ht) as Hc.
          rewrite Hd in *. rewrite app_cons.
          cbn [contains_char] in Hc. apply orb_false_elim in Hc as [Hc _].
          unfold cmatch. now rewrite Ascii.eqb_sym, Hc.
        - apply lstrip_not_quote; [now apply contains_char_drop | reflexivity..]. }
    apply star_lazy_here.
    rewrite title_skipped by reflexivity.
    rewrite cmatch_lit_refl. reflexivity. }
  cbn [m_len m_group0]. unfold group. cbn [map m_groups group_lookup Nat.eqb].
  pose proof (length_image_link label t) as Hlen.
  split; [lia|]. split.
  - rewrite <- Hs.
    match goal with
    | |- take ?n _ = _ =>
        replace n with (String.length (image_link label t)) by lia
    end.
    apply take_app_length.
  - match goal with
    | |- take ?n (drop ?k _) = _ =>
        replace n with (String.length t) by lia;
        replace k with (String.length (String "!" (String "[" (label +:+ "]("))))
    end.
    2:{ cbn [String.length]. rewrite length_app_str. simpl. lia. }
    replace (String "!" (String "[" (label +:+ String "]"
               (String "(" (t +:+ String ")" post)))))
      with (String "!" (String "[" (label +:+ "](")) +:+ (t +:+ String ")" post)).
    2:{ rewrite !app_cons. do 2 f_equal. now rewrite app_assoc_str. }
    rewrite drop_app_length. apply take_app_length.
Qed.

End ImageMatch.
Section ScanParts.
Import PyStr Re.

(** Where the pattern matches nowhere the scan gives the text back. *)
Lemma join_scan_no_match (r : regex) (f : Match -> string) :
  forall s pos,
    (forall i, match_at r (drop i s) (pos + i) = None) ->
    join_pieces f (scan r pos 0 s) = s.
Proof.
  induction s as [|c s IH]; intros pos H.
  - cbn [scan]. specialize (H 0). simpl in H. rewrite Nat.add_0_r in H. now rewrite H.
  - cbn [scan]. pose proof (H 0) as H0. simpl in H0. rewrite Nat.add_0_r in H0.
    rewrite H0. cbn [join_pieces]. f_equal. apply IH.
    intros i. specialize (H (S i)). simpl in H. now rewrite Nat.add_succ_r in H.
Qed.

(** The scan copies a prefix in which the pattern matches nowhere. *)
Lemma join_scan_prefix (r : regex) (f : Match -> string) :
  forall pre s pos,
    (forall i, i < String.length pre ->
               match_at r (drop i (pre +:+ s)) (pos + i) = None) ->
    join_pieces f (scan r pos 0 (pre +:+ s))
    = pre +:+ join_pieces f (scan r (pos + String.length pre) 0 s).
Proof.
  induction pre as [|c pre IH]; intros s pos H.
  - rewrite !app_nil. simpl. now rewrite Nat.add_0_r.
  - rewrite !app_cons. cbn [scan].
    pose proof (H 0 ltac:(simpl; lia)) as H0. simpl in H0.
    rewrite Nat.add_0_r, app_cons in H0. rewrite H0.
    cbn [join_pieces]. f_equal. rewrite IH.
    + simpl. now rewrite Nat.add_succ_r.
    + intros i Hi. specialize (H (S i) ltac:(simpl; lia)).
      rewrite app_cons in H. simpl in H. now rewrite Nat.add_succ_r in H.
Qed.

Lemma scan_skip_app (r : regex) :
  forall v s pos,
    scan r pos (String.length v) (v +:+ s) = scan r (pos + String.length v) 0 s.
Proof.
  induction v as [|c v IH]; intros s pos.
  - rewrite app_nil. simpl. now rewrite Nat.add_0_r.
  - rewrite app_cons. cbn [scan String.length]. rewrite IH.
    now rewrite Nat.add_succ_r.
Qed.

(** A match at the head of the text is replaced and the scan goes on
    after it. *)
Lemma join_scan_match (r : regex) (f : Match -> string) (c : ascii) (w s : string)
      (pos : nat) (m : Match) :
  match_at r (String c w +:+ s) pos = Some m ->
  m_len m = String.length (String c w) ->
  join_pieces f (scan r pos 0 (String c w +:+ s))
  = f m +:+ join_pieces f (scan r (pos + String.length (String c w)) 0 s).
Proof.
  intros Hm Hlen. rewrite app_cons in *. cbn [scan]. rewrite Hm, Hlen.
  cbn [String.length join_pieces]. rewrite scan_skip_app.
  now rewrite Nat.add_succ_r.
Qed.

Lemma join_scan_without_bracket (r : regex) (f : Match -> string) (s : string)
      (pos : nat) :
  (forall s pos, contains_char "[" s = false -> match_at r s pos = None) ->
  contains_char "[" s = false ->
  join_pieces f (scan r pos 0 s) = s.
Proof.
  intros Hr H. apply join_scan_no_match.
  intros i. apply Hr. now apply contains_char_drop.
Qed.

End ScanParts.

Section RewriteLinks.
Import PyStr Re.

Lemma endswith_tail (c : ascii) (s p : string) :
  endswith (String c s) p = false -> endswith s p = false.
Proof. cbn [endswith]. intros H. now apply orb_false_elim in H as [_ H]. Qed.

(** The image pattern matches nowhere in a text whose only opening
    bracket does not follow an exclamation mark. *)
Lemma image_nowhere (pre rest : string) :
  contains_char "[" pre = false -> endswith pre "!" = false ->
  contains_char "[" rest = false ->
  forall i pos, match_at image_pattern (drop i (pre +:+ String "[" rest)) pos = None.
Proof.
  intros Hpre Hend Hrest. induction pre as [|c pre IH]; intros i pos.
  - rewrite app_nil. destruct i as [|i]; [now apply image_first|].
    simpl. apply image_needs_bracket. now apply contains_char_drop.
  - cbn [contains_char] in Hpre. apply orb_false_elim in Hpre as [Hc Hpre].
    destruct i as [|i].
    + rewrite app_cons. simpl. destruct pre as [|d pre].
      * rewrite app_nil. apply image_first.
        cbn [endswith] in Hend. apply orb_false_elim in Hend as [Hend _].
        apply Ascii.eqb_neq. intros ->. discriminate.
      * rewrite app_cons. apply image_second.
        cbn [contains_char] in Hpre. now apply orb_false_elim in Hpre as [Hd _].
    + rewrite app_cons. simpl. apply IH; [exact Hpre | now apply (endswith_tail c)].
Qed.

Lemma text_nowhere_before (pre s : string) (i pos : nat) :
  contains_char "[" pre = false -> i < String.length pre ->
  match_at text_link_pattern (drop i (pre +:+ s)) pos = None.
Proof.
  intros Hpre Hi. destruct (drop_inside pre s i Hi) as (c & w & -> & Hc).
  apply text_link_first. rewrite Ascii.eqb_sym. now apply (char_differs c "[" pre).
Qed.

Lemma image_nowhere_before (pre s : string) (i pos : nat) :
  contains_char "[" pre = false -> i < String.length pre ->
  match_at image_pattern (drop i (pre +:+ String "!" s)) pos = None.
Proof.
  intros Hpre. revert i. induction pre as [|c pre IH]; intros i Hi;
    [simpl in Hi; lia|].
  cbn [contains_char] in Hpre. apply orb_false_elim in Hpre as [Hc Hpre].
  rewrite app_cons. destruct i as [|i].
  - simpl. destruct pre as [|d pre].
    + rewrite app_nil. now apply image_second.
    + rewrite app_cons. apply image_second.
      cbn [contains_char] in Hpre. now apply orb_false_elim in Hpre as [Hd _].
  - simpl. apply IH; [exact Hpre | simpl in Hi; lia].
Qed.

Lemma text_link_no_bracket (label t post : string) :
  contains_char "[" label = false -> contains_char "[" t = false ->
  contains_char "[" post = false ->
  contains_char "[" ((label +:+ String "]" (String "(" (t +:+ ")"))) +:+ post) = false.
Proof.
  intros Hl Ht Hp. rewrite !contains_char_app. cbn [contains_char].
  rewrite contains_char_app, Hl, Ht, Hp. reflexivity.
Qed.

Lemma _replace_link_mapped (link_map : gmap string string) (m : Match)
      (target new : string) :
  strip (group m 1) = target -> link_map !! target = Some new ->
  _replace_link link_map m = replace (m_group0 m) target new.
Proof. intros Hg Hmap. unfold _replace_link. now rewrite Hg, Hmap. Qed.

(** X18: a plain link whose target is a key of the mapping is rewritten
    to the mapped value, and the rest of the text is kept: the text before
    and after holds no opening bracket (and the text before does not end
    with an exclamation mark), the label holds no bracket and no line
    break, and the target is a stripped non-empty text without brackets,
    parentheses or line breaks that does not occur in the label. *)
Theorem replace_markdown_links_text_link
        (pre label target post new : string) (link_map : gmap string string) :
  contains_char "[" pre = false -> endswith pre "!" = false ->
  contains_char "[" label = false -> contains_char "]" label = false ->
  contains_char nl label = false ->
  nonempty target = true -> strip target = target ->
  contains_char "[" target = false -> contains_char "]" target = false ->
  contains_char "(" target = false -> contains_char ")" target = false ->
  contains_char nl target = false ->
  occurs target label = false ->
  contains_char "[" post = false ->
  link_map !! target = Some new ->
  replace_markdown_links (pre +:+ text_link label target +:+ post) link_map
  = pre +:+ text_link label new +:+ post.
Proof.
  intros Hpre Hend Hlo Hlc Hlnl Hne Hstrip Hto Htc Htpo Htpc Htnl Hocc Hpost Hmap.
  unfold replace_markdown_links.
  destruct (decide (link_map = ∅)) as [->|_]; [now rewrite lookup_empty in Hmap|].
  assert (Hpass1 : sub image_pattern (_replace_link link_map)
                     (pre +:+ text_link label target +:+ post)
                   = pre +:+ text_link label target +:+ post).
  { unfold sub. apply join_scan_no_match. intros i.
    unfold text_link. rewrite app_cons.
    apply image_nowhere; [exact Hpre | exact Hend |].
    now apply text_link_no_bracket. }
  rewrite Hpass1. unfold sub.
  rewrite join_scan_prefix by (intros i Hi; now apply text_nowhere_before).
  f_equal.
  destruct (text_link_match label target post (0 + String.length pre) Hlc Hlnl Htpc Htnl)
    as (m & Hm & Hlen & Hg0 & Hg1).
  unfold text_link at 1. unfold text_link in Hm at 1.
  rewrite (join_scan_match _ _ _ _ _ _ m Hm) by exact Hlen.
  rewrite (_replace_link_mapped link_map m target new);
    [|now rewrite Hg1 | exact Hmap].
  rewrite Hg0, replace_text_link by assumption.
  f_equal. now apply join_scan_without_bracket; [apply text_link_needs_bracket|].
Qed.

Lemma pre_bang_no_bracket (pre : string) :
  contains_char "[" pre = false -> contains_char "[" (pre +:+ "!") = false.
Proof. intros H. now rewrite contains_char_app, H. Qed.

(** X19: an image whose target is a key of the mapping is rewritten to
    the mapped value by the first pass and left alone by the second, and
    the rest of the text is kept: the text before and after holds no
    opening bracket, the label holds no closing bracket and no line break,
    the target is a stripped non-empty text without exclamation mark,
    brackets, parentheses, double quote or line break that does not occur
    in the label, and the new value holds no closing parenthesis and no
    line break and is not itself a key. *)
Theorem replace_markdown_links_image
        (pre label target post new : string) (link_map : gmap string string) :
  contains_char "[" pre = false ->
  contains_char "]" label = false -> contains_char nl label = false ->
  nonempty target = true -> strip target = target ->
  contains_char "!" target = false ->
  contains_char "[" target = false -> contains_char "]" target = false ->
  contains_char "(" target = false -> contains_char ")" target = false ->
  contains_char nl target = false -> contains_char dquote target = false ->
  occurs target label = false ->
  contains_char "[" post = false ->
  link_map !! target = Some new ->
  contains_char ")" new = false -> contains_char nl new = false ->
  link_map !! strip new = None ->
  replace_markdown_links (pre +:+ image_link label target +:+ post) link_map
  = pre +:+ image_link label new +:+ post.
Proof.
  intros Hpre Hlc Hlnl Hne Hstrip Htb Hto Htc Htpo Htpc Htnl Htq Hocc Hpost Hmap
         Hnp Hnnl Hnew.
  unfold replace_markdown_links.
  destruct (decide (link_map = ∅)) as [->|_]; [now rewrite lookup_empty in Hmap|].
  assert (Hpass1 : sub image_pattern (_replace_link link_map)
                     (pre +:+ image_link label target +:+ post)
                   = pre +:+ image_link label new +:+ post).
  { unfold sub.
    rewrite join_scan_prefix.
    2:{ intros i Hi. unfold image_link. rewrite app_cons.
        now apply image_nowhere_before. }
    f_equal.
    destruct (image_link_match label target post (0 + String.length pre)
                Hlc Hlnl Htpc Htnl Htq) as (m & Hm & Hlen & Hg0 & Hg1).
    unfold image_link at 1. unfold image_link in Hm at 1.
    rewrite (join_scan_match _ _ _ _ _ _ m Hm) by exact Hlen.
    rewrite (_replace_link_mapped link_map m target new);
      [|now rewrite Hg1 | exact Hmap].
    rewrite Hg0, replace_image_link by assumption.
    f_equal. now apply join_scan_without_bracket; [apply image_needs_bracket|]. }
  rewrite Hpass1. unfold sub, image_link.
  replace (pre +:+ String "!" (text_link label new) +:+ post)
    with ((pre +:+ "!") +:+ text_link label new +:+ post)
    by (now rewrite app_assoc_str, !app_cons, app_nil).
  rewrite join_scan_prefix
    by (intros i Hi; apply text_nowhere_before;
        [now apply pre_bang_no_bracket | exact Hi]).
  f_equal.
  destruct (text_link_match label new post (0 + String.length (pre +:+ "!"))
              Hlc Hlnl Hnp Hnnl) as (m & Hm & Hlen & Hg0 & Hg1).
  unfold text_link at 1. unfold text_link in Hm at 1.
  rewrite (join_scan_match _ _ _ _ _ _ m Hm) by exact Hlen.
  rewrite _replace_link_unmapped by now rewrite Hg1.
  rewrite Hg0. f_equal.
  now apply join_scan_without_bracket; [apply text_link_needs_bracket|].
Qed.

End RewriteLinks.

(** ** The shape of a link target *)

Section TargetShape.
Import PyStr Re.

Lemma star_lazy_inv_strong {A : Type} (k : cclass) (cont : string -> nat -> option A) :
  forall s pos x,
    star_lazy k cont s pos = Some x ->
    exists u s',
      s = u +:+ s' /\ cont s' (pos + String.length u) = Some x
      /\ all_chars (cmatch k) u = true
      /\ forall i, i < String.length u -> cont (drop i s) (pos + i) = None.
Proof.
  induction s as [|c s IH]; intros pos x H; simpl in H.
  - destruct (cont EmptyString pos) eqn:E; [|discriminate].
    exists EmptyString, EmptyString. simpl. rewrite Nat.add_0_r.
    repeat split; try congruence. intros i Hi. lia.
  - destruct (cont (String c s) pos) eqn:E.
    + exists EmptyString, (String c s). simpl. rewrite Nat.add_0_r.
      repeat split; try congruence. intros i Hi. lia.
    + destruct (cmatch k c) eqn:Ec; [|discriminate].
      apply IH in H as (u & s' & -> & H & Hall & Hnone).
      exists (String c u), s'. split; [reflexivity|].
      split; [simpl; now rewrite Nat.add_succ_r|].
      split; [simpl; now rewrite Ec|].
      intros [|i] Hi; simpl.
      * now rewrite Nat.add_0_r.
      * rewrite Nat.add_succ_r. apply Hnone. simpl in Hi. lia.
Qed.

(** The groups set while [r] is matched are groups of [r], put in front
    of those set before. *)
Lemma rmatch_caps {A : Type} (r : regex) :
  forall s pos cs (cont : string -> nat -> caps -> option A) x,
    rmatch r s pos cs cont = Some x ->
    exists s' pos' added,
      cont s' pos' (added ++ cs) = Some x
      /\ Forall (fun e => mentions e.1 r = true) added.
Proof.
  induction r as [| |k|r1 IH1 r2 IH2|g k|r1 IH1|m r1 IH1];
    intros s pos cs cont x H; simpl in H.
  - exists s, pos, []. split; [exact H | constructor].
  - destruct pos; [|discriminate]. exists s, 0, []. split; [exact H | constructor].
  - destruct s as [|c s]; [discriminate|].
    destruct (cmatch k c); [|discriminate].
    exists s, (S pos), []. split; [exact H | constructor].
  - apply IH1 in H as (s1 & p1 & a1 & H & Ha1).
    apply IH2 in H as (s2 & p2 & a2 & H & Ha2).
    exists s2, p2, (a2 ++ a1). split; [now rewrite <- app_assoc|].
    apply Forall_app. split.
    + eapply Forall_impl; [exact Ha2|]. intros e He. simpl. rewrite He. apply orb_true_r.
    + eapply Forall_impl; [exact Ha1|]. intros e He. simpl. now rewrite He.
  - destruct g.
    + apply star_greedy_inv in H as (u & s' & _ & H).
      exists s', (pos + String.length u), []. split; [exact H | constructor].
    + apply star_lazy_inv in H as (u & s' & _ & H).
      exists s', (pos + String.length u), []. split; [exact H | constructor].
  - destruct (rmatch r1 s pos cs cont) eqn:E.
    + injection H as ->. now apply IH1 in E.
    + exists s, pos, []. split; [exact H | constructor].
  - apply IH1 in H as (s1 & p1 & a1 & H & Ha1).
    exists s1, p1, ((m, (pos, p1)) :: a1). split; [exact H|].
    constructor; [simpl; now rewrite Nat.eqb_refl|].
    eapply Forall_impl; [exact Ha1|]. intros e He. simpl. rewrite He. apply orb_true_r.
Qed.

Lemma group_lookup_added (n : nat) (f : nat * (nat * nat) -> nat * string)
      (added rest : caps) :
  (forall e, (f e).1 = e.1) ->
  Forall (fun e => Nat.eqb e.1 n = false) added ->
  group_lookup n (map f (added ++ rest)) = group_lookup n (map f rest).
Proof.
  intros Hf. induction added as [|e added IH]; intros H; [reflexivity|].
  inversion H as [|? ? He Ha]; subst. simpl.
  destruct (f e) as [i t] eqn:Efe. specialize (Hf e). rewrite Efe in Hf. simpl in Hf.
  subst i. rewrite He. now apply IH.
Qed.

(** The end of the link pattern, an optional title and a closing
    parenthesis, succeeds on a text that starts with the parenthesis. *)
Lemma link_end_accepts {A : Type} (w : string) (pos : nat) (cs : caps)
      (cont : string -> nat -> caps -> option A) :
  (forall s p c, cont s p c <> None) ->
  rmatch (RSeq (title_group 3) (RLit ")")) (String ")" w) pos cs cont <> None.
Proof.
  intros Hcont. unfold title_group, RPlus. cbn [rmatch RLit].
  change (cmatch CSpace ")") with false. cbv iota.
  rewrite cmatch_lit_refl. apply Hcont.
Qed.

Lemma no_char_inside (x : ascii) (v s : string) :
  (forall i c w, i < String.length v -> drop i (v +:+ s) = String c w ->
                 Ascii.eqb c x = false) ->
  contains_char x v = false.
Proof.
  induction v as [|a v IH]; intros H; [reflexivity|].
  simpl. rewrite (H 0 a (v +:+ s) ltac:(simpl; lia) eq_refl). simpl.
  apply IH. intros i c w Hi Hd. apply (H (S i) c w); [simpl; lia|].
  now rewrite app_cons.
Qed.

Lemma dot_no_newline (v : string) :
  all_chars (cmatch CDot) v = true -> contains_char nl v = false.
Proof.
  induction v as [|c v IH]; simpl; [reflexivity|].
  intros H. apply andb_prop in H as [Hc H].
  apply negb_true_iff in Hc. now rewrite Hc, IH.
Qed.

(** Group 2 of a match of the link pattern holds neither a closing
    parenthesis nor a line break. *)
Lemma link_match_target (s : string) (pos : nat) (m : Match) :
  match_at link_pattern s pos = Some m ->
  contains_char ")" (group m 2) = false /\ contains_char nl (group m 2) = false.
Proof.
  unfold match_at, link_pattern.
  set (final := fun (_ : string) (e : nat) (cs : caps) => Some _).
  set (tail := RSeq (title_group 3) (RLit ")")).
  change (rmatch (RSeq ?a (RSeq ?b (RSeq ?c (RSeq ?d ?e)))) s pos [] final)
    with (rmatch (RSeq a (RSeq b (RSeq c d))) s pos []
            (fun s4 p4 c4 => rmatch e s4 p4 c4 final)).
  intros H. apply rmatch_inv in H as (u & s4 & c4 & -> & H).
  cbn [rmatch] in H.
  apply star_lazy_inv_strong in H as (v & s5 & -> & H & Hdot & Hnone).
  apply rmatch_caps in H as (s6 & e & added & H & Hadded).
  unfold final in H. injection H as <-.
  unfold group. cbn [m_groups].
  rewrite (group_lookup_added 2 _ added); [| now intros [i [a b]] |].
  2:{ eapply Forall_impl; [exact Hadded|]. intros [i sp] He. simpl in *.
      destruct (Nat.eqb i 2) eqn:E; [|reflexivity].
      apply Nat.eqb_eq in E. subst. discriminate. }
  cbn [map group_lookup Nat.eqb].
  replace (pos + String.length u + String.length v - (pos + String.length u))
    with (String.length v) by lia.
  replace (pos + String.length u - pos) with (String.length u) by lia.
  rewrite drop_app_length, take_app_length.
  split; [|now apply dot_no_newline].
  apply (no_char_inside ")" v s5). intros i c w Hi Hd.
  destruct (Ascii.eqb c ")") eqn:E; [|reflexivity].
  apply Ascii.eqb_eq in E. subst c. specialize (Hnone i Hi). rewrite Hd in Hnone.
  exfalso. revert Hnone. apply link_end_accepts. intros ? ? ?. discriminate.
Qed.

(** X20: the target of a link match never holds a closing parenthesis or
    a line break, before and after stripping: a target is cut at the
    first closing parenthesis. *)
Theorem link_targets_cut (content : string) :
  Forall (fun m => contains_char ")" m.1.2 = false
                   /\ contains_char nl m.1.2 = false
                   /\ contains_char ")" (link_path m) = false
                   /\ contains_char nl (link_path m) = false)
         (link_matches content).
Proof.
  unfold link_matches, finditer. apply Forall_map.
  apply scan_matches. intros s pos m H. unfold link_path. simpl.
  destruct (link_match_target s pos m H) as [Hp Hn].
  repeat split; try assumption; now apply strip_no_char.
Qed.

End TargetShape.

(** ** The result of [parse] *)

Section ParseResult.
Import PyStr Re.
Variable os : OS.

(** X21: [parse] raises [FileNotFoundError] when the path does not
    exist and passes on the error of reading the file.  When the file
    exists and reads as [text], and [urlparse] raises on no target,
    [parse] returns the record made of the text, the absolute path and its
    directory, the front matter of the text, the stripped http and https
    targets in order, the assets of the other targets that exist in
    order, and no cover. *)
Theorem parse_result (self : MarkdownParser) (md_file_path : string) :
  (path_exists os md_file_path = false ->
   parse os self md_file_path = Raise FileNotFoundError)
  /\ (forall e, path_exists os md_file_path = true ->
                read_text os (abspath os md_file_path) = Raise e ->
                parse os self md_file_path = Raise e)
  /\ (forall text,
        path_exists os md_file_path = true ->
        read_text os (abspath os md_file_path) = Ok text ->
        (forall m, In m (link_matches text) ->
                   exists s, urlparse_scheme os (link_path m) = Ok s) ->
        exists self',
          parse os self md_file_path
          = Ok (self',
                {| content := text;
                   file_path := abspath os md_file_path;
                   dir_path := dirname os (abspath os md_file_path);
                   external_links :=
                     List.filter (fun p => nonempty p && is_external os p)
                                 (map link_path (link_matches text));
                   local_assets :=
                     omap (local_asset_of os (dirname os (abspath os md_file_path)))
                          (link_matches text);
                   cover_image := None;
                   front_matter := _extract_front_matter text |})).
Proof.
  unfold parse. split; [|split].
  - now intros ->.
  - intros e -> ->. reflexivity.
  - intros text -> -> Hparse. cbn [negb mbind outcome_bind].
    set (dir := dirname os (abspath os md_file_path)).
    set (start := {| content := text; file_path := abspath os md_file_path;
                     dir_path := dir; external_links := []; local_assets := [];
                     cover_image := None;
                     front_matter := _extract_front_matter text |}).
    destruct (for_each_link_step_external os dir (link_matches text) Hparse start)
      as (r1 & Hrun & Hext).
    destruct (for_each_link_step_local os dir (link_matches text) Hparse start)
      as (r2 & Hrun2 & Hloc).
    pose proof (for_each_link_step_extends os dir (link_matches text) start r1 Hrun)
      as (Hc & Hf & Hd & Hci & Hfm & _).
    assert (r2 = r1) by congruence. subst r2.
    unfold _extract_links. rewrite Hrun. cbn [mbind outcome_bind].
    pose proof (_extract_cover_image_result os self text dir r1) as Hres.
    destruct (_extract_cover_image os self text dir r1) as [[self' r'] ret].
    simpl in Hres. subst r'. exists self'. do 2 f_equal.
    destruct r1; simpl in *. subst. reflexivity.
Qed.

End ParseResult.

(** ** Uploading in batches *)

Section UploadBatches.
Import PyStr.
Variable Server : Type.
Variable read_bytes : string -> outcome string.
Variable guess_type : string -> option string.
Variable wp_uploadFile :
  Server -> string -> string -> string -> Server * outcome (option string * option Z).

Abbreviation loop_step := (upload_step Server read_bytes guess_type wp_uploadFile).
Abbreviation run_uploads := (upload_assets Server read_bytes guess_type wp_uploadFile).

(** The loop started with maps that hold entries gives what it gives
    started with empty maps, laid over those entries. *)
Lemma fold_upload_over (file_prefix : string) (assets : list Asset) :
  forall (server : Server) (link_map : gmap string string) (asset_id_map : gmap string Z),
    fold_left (loop_step file_prefix) assets (server, link_map, asset_id_map)
    = let '(server', links, ids) :=
        fold_left (loop_step file_prefix) assets (server, ∅, ∅) in
      (server', links ∪ link_map, ids ∪ asset_id_map).
Proof.
  induction assets as [|asset assets IH]; intros server link_map asset_id_map.
  - simpl. now rewrite !(left_id_L ∅ (∪)).
  - cbn [fold_left]. unfold upload_step at 2 4.
    destruct (_upload_single_asset Server read_bytes guess_type wp_uploadFile
                server asset file_prefix) as [server1 [[url media_id]|e]];
      [|apply IH].
    destruct (truthy_str url && truthy_int media_id); [|apply IH].
    rewrite IH. rewrite (IH server1 (<[_:=_]> ∅) (<[_:=_]> ∅)).
    destruct (fold_left (loop_step file_prefix) assets (server1, ∅, ∅))
      as [[server' links] ids].
    rewrite <- !(assoc_L (∪)), <- !insert_union_l, !(left_id_L ∅ (∪)).
    reflexivity.
Qed.

(** X22: uploading a list in two batches, the second starting from the
    site as the first left it, and laying the maps of the second batch
    over those of the first gives what uploading the whole list at once
    gives: for a reference uploaded twice the later upload wins. *)
Theorem upload_assets_batches (server : Server) (first second : list Asset)
        (file_prefix : string) :
  run_uploads server (first ++ second) file_prefix
  = let '(server1, links1, ids1) := run_uploads server first file_prefix in
    let '(server2, links2, ids2) := run_uploads server1 second file_prefix in
    (server2, links2 ∪ links1, ids2 ∪ ids1).
Proof.
  rewrite !upload_assets_fold, fold_left_app.
  destruct (fold_left (loop_step file_prefix) first (server, ∅, ∅))
    as [[server1 links1] ids1].
  rewrite upload_assets_fold. apply fold_upload_over.
Qed.

End UploadBatches.

(** ** The added properties on concrete inputs *)

Lemma upload_assets_all_failed_witness :
  (upload_assets nat Remote.read_any Remote.no_guess Remote.refuse 0
     [Scenario.hero_asset; Scenario.hero_link_asset] "p_").1.2 = ∅
  /\ (upload_assets nat Remote.read_any Remote.no_guess Remote.refuse 0
        [Scenario.hero_asset; Scenario.hero_link_asset] "p_").2 = ∅.
Proof.
  apply (upload_assets_all_failed nat Remote.read_any Remote.no_guess Remote.refuse).
  intros server' asset. simpl. exact I.
Defined.

Lemma upload_assets_all_stored_witness :
  is_Some ((upload_assets nat Remote.read_any Remote.no_guess Remote.accept 0
              [Scenario.hero_asset] "p_").1.2
           !! original_path Scenario.hero_asset)
  /\ is_Some ((upload_assets nat Remote.read_any Remote.no_guess Remote.accept 0
                 [Scenario.hero_asset] "p_").2
              !! original_path Scenario.hero_asset).
Proof.
  apply (upload_assets_all_stored nat Remote.read_any Remote.no_guess Remote.accept 0
           [Scenario.hero_asset] "p_").
  - intros server' asset. reflexivity.
  - simpl. now left.
Defined.

Lemma publish_when_uploads_fail_witness :
  exists server',
    publish_from_parsed_result (Posix.system []) (fun name => name) nat
      Remote.read_any Remote.no_guess Remote.refuse
      (fun server data => (server, Ok 7%Z)) 0
      {| content := "![hero](cover.jpg)"; file_path := "/blog/post.md";
         dir_path := "/blog"; external_links := [];
         local_assets := [Scenario.hero_asset];
         cover_image := Some Scenario.hero_asset; front_matter := ∅ |}
      None None None "p_" "draft"
    = (server', Ok 7%Z).
Proof.
  destruct (publish_when_uploads_fail (Posix.system []) (fun name => name) nat
              Remote.read_any Remote.no_guess Remote.refuse
              (fun server data => (server, Ok 7%Z)) 0
              {| content := "![hero](cover.jpg)"; file_path := "/blog/post.md";
                 dir_path := "/blog"; external_links := [];
                 local_assets := [Scenario.hero_asset];
                 cover_image := Some Scenario.hero_asset; front_matter := ∅ |}
              None None None "p_" "draft") as [server' H].
  - intros server'' asset. simpl. exact I.
  - exists server'. exact H.
Defined.

Lemma _extract_links_only_appends_witness :
  exists result',
    _extract_links Scenario.cover_system Scenario.cover_doc "/blog"
      (empty_result Scenario.cover_doc "/blog/post.md" "/blog") = Ok result'
    /\ content result' = Scenario.cover_doc
    /\ cover_image result' = None.
Proof.
  eexists. split; [reflexivity|].
  destruct (_extract_links_only_appends Scenario.cover_system Scenario.cover_doc
              "/blog" (empty_result Scenario.cover_doc "/blog/post.md" "/blog")
              _ eq_refl) as (Hc & _ & _ & Hcover & _).
  split; [exact Hc | exact Hcover].
Defined.

Lemma _extract_links_assets_exist_witness :
  exists result' assets,
    _extract_links Scenario.cover_system Scenario.cover_doc "/blog"
      (empty_result Scenario.cover_doc "/blog/post.md" "/blog") = Ok result'
    /\ local_assets result' = [] ++ assets
    /\ Forall (fun asset =>
                 path_exists Scenario.cover_system (absolute_path asset) = true)
              assets.
Proof.
  destruct (_extract_links_assets_exist Scenario.cover_system Scenario.cover_doc
              "/blog" (empty_result Scenario.cover_doc "/blog/post.md" "/blog")
              _ eq_refl) as (assets & Ha & HP).
  eexists. exists assets. split; [reflexivity|]. split; [exact Ha|].
  eapply Forall_impl; [exact HP|]. now intros a (Hex & _).
Defined.

Lemma local_assets_in_order_witness :
  exists result',
    _extract_links Scenario.cover_system Scenario.cover_doc "/blog"
      (empty_result Scenario.cover_doc "/blog/post.md" "/blog") = Ok result'
    /\ local_assets result' = [Scenario.hero_asset].
Proof.
  destruct (local_assets_in_order Scenario.cover_system Scenario.cover_doc "/blog"
              (empty_result Scenario.cover_doc "/blog/post.md" "/blog"))
    as (result' & Hrun & Hloc).
  - intros m _. eexists. reflexivity.
  - exists result'. split; [exact Hrun|]. rewrite Hloc. reflexivity.
Defined.

Lemma no_bracket_no_link_witness :
  link_matches "plain text (with parentheses) and a.png" = []
  /\ replace_markdown_links "plain text (with parentheses) and a.png"
       {[ "a.png" := "https://cdn.example/a.png" ]}
     = "plain text (with parentheses) and a.png".
Proof.
  destruct (no_bracket_no_link "plain text (with parentheses) and a.png" eq_refl)
    as (Hm & _ & Hr).
  split; [exact Hm | apply Hr].
Defined.

Lemma front_matter_entries_clean_witness :
  PyStr.lower "tags" = "tags" /\ PyStr.strip "tags" = "tags"
  /\ contains_char ":" "tags" = false /\ PyStr.strip "a, b" = "a, b".
Proof.
  apply (front_matter_entries_clean Scenario.front_doc "tags" "a, b").
  reflexivity.
Defined.

Lemma replace_markdown_links_text_link_witness :
  replace_markdown_links ("see " +:+ text_link "doc" "./spec.pdf" +:+ " now")
    {[ "./spec.pdf" := "https://cdn.example/spec.pdf" ]}
  = "see " +:+ text_link "doc" "https://cdn.example/spec.pdf" +:+ " now".
Proof.
  apply replace_markdown_links_text_link; reflexivity.
Defined.

Lemma replace_markdown_links_image_witness :
  replace_markdown_links ("Fig. " +:+ image_link "alt" "img/a.png" +:+ " end")
    {[ "img/a.png" := "https://cdn.example/a.png" ]}
  = "Fig. " +:+ image_link "alt" "https://cdn.example/a.png" +:+ " end".
Proof.
  apply replace_markdown_links_image; reflexivity.
Defined.

Lemma parse_result_witness :
  exists self',
    parse Scenario.cover_system {| cover_path := None |} "/blog/post.md"
    = Ok (self',
          {| content := Scenario.cover_doc;
             file_path := "/blog/post.md";
             dir_path := "/blog";
             external_links := [];
             local_assets := [Scenario.hero_asset];
             cover_image := None;
             front_matter := ∅ |}).
Proof.
  destruct (parse_result Scenario.cover_system {| cover_path := None |} "/blog/post.md")
    as (_ & _ & H).
  destruct (H Scenario.cover_doc eq_refl eq_refl) as [self' Hparse].
  - intros m _. eexists. reflexivity.
  - exists self'. exact Hparse.
Defined.
